(** * dased_paper: the lookup-table calculator and the interactive point selector

    A shallow embedding of [notebooks/helpers.py] (class
    [PhaseLookupCalculator]) and of [notebooks/interactive_proposal.py]
    (class [PointSelector] and function [select_points]), together with the
    properties the design document states about them.

    Conventions of the embedding.
    - A finite Python float is an exact rational ([float := Qc]); the
      not-a-number value only occurs as the content of a grid cell and is
      the [None] of [cell := option float].  The remainder [%] is the
      float operation, with the rounding of its sum; the products are
      exact.  A float that is printed carries its sign bit
      ([signed_float]), so that [-0.0] differs from [0.0] there.
      Infinities and NaN inputs are outside the model.
    - A numpy array of shape (receiver, distance, source) is a nested list
      indexed in that order.
    - A raised Python exception is the [Raise] of [Result].
    - The file system is a finite map from paths to file contents. *)

From Stdlib Require Import QArith Qcanon Qround Qabs Qpower DecimalString Lia.
From stdpp Require Import gmap strings list sorting.

Local Open Scope Qc_scope.

(** ** Numbers *)

Module Numeric.

Abbreviation float := Qc (only parsing).

Definition of_Z (z : Z) : float := Q2Qc (inject_Z z).

(** [abs(x)] *)
Definition fabs (x : float) : float := if decide (x < 0) then - x else x.

(** Rounding of a non-negative rational to the nearest integer, ties to
    even: the rounding mode of the float operations and of the [.2f]
    conversion. *)
Definition round_half_even (q : Q) : Z :=
  let fl := Qfloor q in
  match Qcompare (q - inject_Z fl) (1 # 2) with
  | Lt => fl
  | Gt => (fl + 1)%Z
  | Eq => if Z.even fl then fl else (fl + 1)%Z
  end.

(** The binary exponent of a positive rational: the [k] with
    [2^k <= q < 2^(k+1)]. *)
Definition ilog2 (q : Q) : Z :=
  let k := (Z.log2 (Qnum q) - Z.log2 (Zpos (Qden q)))%Z in
  if Qle_bool (Qpower 2 k) q then k else (k - 1)%Z.

(** The double nearest to a positive rational, ties to even: 53
    significant bits, and the spacing [2^-1074] of the subnormal range.
    Overflow is left out: the one sum rounded below is smaller in
    magnitude than one of its terms. *)
Definition round_binary64 (q : Q) : Q :=
  let e := Z.max (ilog2 q - 52) (-1074) in
  (inject_Z (round_half_even (q * Qpower 2 (- e))) * Qpower 2 e)%Q.

(** The float sum [a + b]: the exact sum, rounded to the nearest
    double. *)
Definition float_add (a b : float) : float :=
  let s := a + b in
  if decide (s < 0) then - Q2Qc (round_binary64 (this (- s)))
  else if decide (s = 0) then 0
  else Q2Qc (round_binary64 (this s)).

(** Rounding towards zero. *)
Definition trunc (q : Q) : Z := if Qle_bool 0 q then Qfloor q else Qceiling q.

(** C's [fmod(x, y)]: the remainder of the division truncated towards
    zero.  It has the sign of [x] and is exact. *)
Definition c_fmod (x y : float) : float :=
  x - y * of_Z (trunc (this (x / y)%Qc)).

(** [x % y] on floats for a non-zero [y], as the interpreter computes
    it: C's [fmod], and when the remainder is not zero and its sign is not
    that of [y], the float sum of the remainder and [y].  That sum is
    rounded: for a negative [x] of tiny magnitude, [x % 180] is [180.0]
    itself. *)
Definition fmod (x y : float) : float :=
  let m := c_fmod x y in
  if decide (m = 0) then 0
  else if xorb (bool_decide (y < 0)) (bool_decide (m < 0)) then float_add m y
  else m.

(** The digits of [|x|] after the [.2f] conversion, as a number of
    hundredths. *)
Definition hundredths (x : float) : Z :=
  round_half_even (Qabs (this x) * inject_Z 100).

Definition decimal (z : Z) : string :=
  NilZero.string_of_uint (N.to_uint (Z.to_N z)).

Definition two_digits (z : Z) : string :=
  if (z <? 10)%Z then "0" +:+ decimal z else decimal z.

(** A float as the string conversions see it.  They print the sign bit,
    and the float [-0.0], which is equal to [0.0] as a number, has it
    set: next to the finite numbers ([Finite 0] is [0.0]) there is the
    negative zero. *)
Inductive signed_float :=
| Finite (x : float)
| NegativeZero.

Definition number (s : signed_float) : float :=
  match s with
  | Finite x => x
  | NegativeZero => 0
  end.

Definition signbit (s : signed_float) : bool :=
  match s with
  | Finite x => bool_decide (x < 0)
  | NegativeZero => true
  end.

(** [f"{x:.2f}"]: the sign is the sign bit of [x] itself, so a small
    negative number and the negative zero print as [-0.00]. *)
Definition format_2f (x : signed_float) : string :=
  let h := hundredths (number x) in
  (if signbit x then "-" else "")
    +:+ decimal (h / 100) +:+ "." +:+ two_digits (h mod 100).

(** [round(x, 2)] as a number: what two coordinates "agree on after
    two-decimal rounding". *)
Definition round2 (x : float) : float :=
  (if decide (x < 0) then - of_Z (hundredths x) else of_Z (hundredths x))
    / of_Z 100.

End Numeric.
Export Numeric.

(** ** Exceptions *)

Inductive exn := KeyError | ValueError.

Inductive Result (A : Type) :=
| Ok (a : A)
| Raise (e : exn).
Arguments Ok {A} a.
Arguments Raise {A} e.

#[global] Instance Result_bind : MBind Result := λ A B k m,
  match m with
  | Ok a => k a
  | Raise e => Raise e
  end.

(** A [for] loop whose body may raise. *)
Fixpoint for_each {A S} (body : S → A → Result S) (l : list A) (s : S)
  : Result S :=
  match l with
  | [] => Ok s
  | x :: l' => s' ← body s x; for_each body l' s'
  end.

(** [enumerate(l)] *)
Definition enumerate {A} (l : list A) : list (nat * A) := imap pair l.

(** ** [notebooks/helpers.py] *)

Module Helpers.

(** *** The ray tracer (pyrocko's [cake], an external collaborator) *)

(** What the code reads of one arrival: [a.x], [a.t],
    [a.incidence_angle()], [a.takeoff_angle()], [a.efficiency()] and
    [a.path.phase.definition()]. *)
Record Arrival := {
  a_x : float;
  a_t : float;
  a_incidence_angle : float;
  a_takeoff_angle : float;
  a_efficiency : float;
  a_phase : string
}.

(** [model.arrivals(distances, phases=..., zstart=..., zstop=...)] *)
Definition VelocityModel : Type :=
  list float → list string → float → float → list Arrival.

(** *** The table *)

Inductive quantity := arrival_time | incidence_angle | takeoff_angle | efficiency.

#[global] Instance quantity_eq_dec : EqDecision quantity.
Proof. solve_decision. Defined.

(** The [for quantity in [...]] list of [_calculate_lookup]. *)
Definition quantities : list quantity :=
  [arrival_time; incidence_angle; takeoff_angle; efficiency].

(** A grid cell: [None] is not-a-number. *)
Abbreviation cell := (option float) (only parsing).
Definition nan : cell := None.

(** An array of shape (receiver_depth, distance, source_depth). *)
Abbreviation array3 := (list (list (list cell))) (only parsing).

(** [np.full((nr, nd, ns), np.nan)] *)
Definition full_nan (nr nd ns : nat) : array3 :=
  replicate nr (replicate nd (replicate ns nan)).

(** [a[ri, j, si]]; the outer [None] is an index out of range. *)
Definition get3 (a : array3) (ri j si : nat) : option cell :=
  plane ← a !! ri; row ← plane !! j; row !! si.

(** The [xr.Dataset]: four data variables over three coordinates. *)
Record Dataset := {
  ds_arrival_time : array3;
  ds_incidence_angle : array3;
  ds_takeoff_angle : array3;
  ds_efficiency : array3;
  coord_receiver_depth : list float;
  coord_distance : list float;
  coord_source_depth : list float
}.

(** [ds[quantity].values] *)
Definition values (ds : Dataset) (q : quantity) : array3 :=
  match q with
  | arrival_time => ds_arrival_time ds
  | incidence_angle => ds_incidence_angle ds
  | takeoff_angle => ds_takeoff_angle ds
  | efficiency => ds_efficiency ds
  end.

Definition set_values (ds : Dataset) (q : quantity) (a : array3) : Dataset :=
  match q with
  | arrival_time =>
      {| ds_arrival_time := a;
         ds_incidence_angle := ds_incidence_angle ds;
         ds_takeoff_angle := ds_takeoff_angle ds;
         ds_efficiency := ds_efficiency ds;
         coord_receiver_depth := coord_receiver_depth ds;
         coord_distance := coord_distance ds;
         coord_source_depth := coord_source_depth ds |}
  | incidence_angle =>
      {| ds_arrival_time := ds_arrival_time ds;
         ds_incidence_angle := a;
         ds_takeoff_angle := ds_takeoff_angle ds;
         ds_efficiency := ds_efficiency ds;
         coord_receiver_depth := coord_receiver_depth ds;
         coord_distance := coord_distance ds;
         coord_source_depth := coord_source_depth ds |}
  | takeoff_angle =>
      {| ds_arrival_time := ds_arrival_time ds;
         ds_incidence_angle := ds_incidence_angle ds;
         ds_takeoff_angle := a;
         ds_efficiency := ds_efficiency ds;
         coord_receiver_depth := coord_receiver_depth ds;
         coord_distance := coord_distance ds;
         coord_source_depth := coord_source_depth ds |}
  | efficiency =>
      {| ds_arrival_time := ds_arrival_time ds;
         ds_incidence_angle := ds_incidence_angle ds;
         ds_takeoff_angle := ds_takeoff_angle ds;
         ds_efficiency := a;
         coord_receiver_depth := coord_receiver_depth ds;
         coord_distance := coord_distance ds;
         coord_source_depth := coord_source_depth ds |}
  end.

(** [a[ri, :, si] = v] of numpy.  The target has one element per
    distance; [v] is copied element by element when it has that many
    elements, a one-element [v] is broadcast to every distance, and any
    other length is a [ValueError]. *)
Definition assign_column (a : array3) (ri si : nat) (v : list float)
  : Result array3 :=
  let nd := length (default [] (a !! ri)) in
  if decide (length v = nd) then
    Ok (alter (imap (λ j row,
                 match v !! j with
                 | Some x => <[si := Some x]> row
                 | None => row
                 end)) ri a)
  else
    match v with
    | [x] => Ok (alter (fmap (λ row, <[si := Some x]> row)) ri a)
    | _ => Raise ValueError
    end.

(** *** The per-pair table ([pd.DataFrame(df_list)]) *)

Record Row := {
  r_distance : float;
  r_arrival_time : float;
  r_incidence_angle : float;
  r_takeoff_angle : float;
  r_phase : string;
  r_efficiency : float
}.

(** [df[quantity]] for one row. *)
Definition column (q : quantity) (r : Row) : float :=
  match q with
  | arrival_time => r_arrival_time r
  | incidence_angle => r_incidence_angle r
  | takeoff_angle => r_takeoff_angle r
  | efficiency => r_efficiency r
  end.

(** The keys of [df.groupby('distance')]: the distinct distances, in
    increasing order. *)
Definition groupby_keys (df : list Row) : list float :=
  merge_sort Qcle (remove_dups (r_distance <$> df)).

(** [idxmin()] within one group of labelled rows: the label of the first
    row that attains the smallest arrival time. *)
Fixpoint idxmin (g : list (nat * Row)) : option (nat * Row) :=
  match g with
  | [] => None
  | (i, r) :: g' =>
      match idxmin g' with
      | Some (i', r') =>
          if decide (r_arrival_time r' < r_arrival_time r)
          then Some (i', r') else Some (i, r)
      | None => Some (i, r)
      end
  end.

(** The rows of [df] (with their index labels) whose distance is [k]. *)
Definition group (df : list Row) (k : float) : list (nat * Row) :=
  filter (λ ir, r_distance ir.2 = k) (enumerate df).

(** [df.groupby('distance')['arrival_time'].idxmin()]: one label per
    key, in key order.  An empty [DataFrame] has no column ['distance']:
    that is the [KeyError]. *)
Definition groupby_idxmin (df : list Row) : Result (list nat) :=
  match df with
  | [] => Raise KeyError
  | _ => Ok (omap (λ k, fst <$> idxmin (group df k)) (groupby_keys df))
  end.

(** [df.loc[labels]] *)
Definition loc (df : list Row) (labels : list nat) : list Row :=
  omap (λ i, df !! i) labels.

(** *** The calculator *)

Section Calculator.

(** [cake.d2m] and [cake.m2d], constants of the ray-tracing library. *)
Variables d2m m2d : float.

(** The attributes [__init__] stores.  The coordinates are printed into
    the file names, so they come with their sign bit.  [model] is the
    velocity model [cake.load_model] builds for the position; creating
    the data directory is not modelled (the file system has no
    directories). *)
Record PhaseLookupCalculator := {
  lat : signed_float;
  lon : signed_float;
  data_dir : string;
  distance_grid : list float;
  source_depth_grid : list float;
  receiver_depth_grid : list float;
  model : VelocityModel
}.

(** One entry of [df_list]. *)
Definition row_of (a : Arrival) : Row :=
  {| r_distance := a_x a * d2m;
     r_arrival_time := fabs (a_t a);
     r_incidence_angle := fmod (a_incidence_angle a) (of_Z 180);
     r_takeoff_angle := a_takeoff_angle a;
     r_phase := a_phase a;
     r_efficiency := a_efficiency a |}.

(** [self.model.arrivals(self.distance_grid * cake.m2d, phases=...,
    zstart=src_depth, zstop=rec_depth)] *)
Definition arrivals (c : PhaseLookupCalculator) (phases : list string)
    (rec_depth src_depth : float) : list Arrival :=
  model c ((λ d, d * m2d) <$> distance_grid c) phases src_depth rec_depth.

(** The dataset [_calculate_lookup] starts from. *)
Definition empty_dataset (c : PhaseLookupCalculator) : Dataset :=
  let a := full_nan (length (receiver_depth_grid c))
                    (length (distance_grid c))
                    (length (source_depth_grid c)) in
  {| ds_arrival_time := a;
     ds_incidence_angle := a;
     ds_takeoff_angle := a;
     ds_efficiency := a;
     coord_receiver_depth := receiver_depth_grid c;
     coord_distance := distance_grid c;
     coord_source_depth := source_depth_grid c |}.

(** [ds[quantity].values[rec_i, :, src_i] = df[quantity].values] *)
Definition write_quantity (df : list Row) (ri si : nat)
    (ds : Dataset) (q : quantity) : Result Dataset :=
  a ← assign_column (values ds q) ri si (column q <$> df);
  Ok (set_values ds q a).

(** The body of the two nested loops, for one (receiver, source)
    pair.  Only the [KeyError] is caught. *)
Definition lookup_pair (c : PhaseLookupCalculator) (phases : list string)
    (ri : nat) (rec_depth : float) (ds : Dataset) (s : nat * float)
  : Result Dataset :=
  let '(si, src_depth) := s in
  let df := row_of <$> arrivals c phases rec_depth src_depth in
  match groupby_idxmin df with
  | Raise KeyError => Ok ds
  | Raise e => Raise e
  | Ok labels => for_each (write_quantity (loc df labels) ri si) quantities ds
  end.

Definition _calculate_lookup (c : PhaseLookupCalculator)
    (phases : list string) : Result Dataset :=
  for_each
    (λ ds '(ri, rec_depth),
       for_each (lookup_pair c phases ri rec_depth)
                (enumerate (source_depth_grid c)) ds)
    (enumerate (receiver_depth_grid c))
    (empty_dataset c).

(** *** The cache *)

(** [os.path.join(a, b)] (posix): an absolute [b] replaces [a]. *)
Definition ends_with_sep (a : string) : bool :=
  match last (String.list_ascii_of_string a) with
  | Some ch => Ascii.eqb ch (Ascii.ascii_of_nat 47) (* the character / *)
  | None => false
  end.

Definition path_join (a b : string) : string :=
  if String.prefix "/" b then b
  else if bool_decide (a = "") || ends_with_sep a then a +:+ b
  else a +:+ "/" +:+ b.

Definition _filename (c : PhaseLookupCalculator) (group : string) : string :=
  path_join (data_dir c)
    (group +:+ "_lookup_" +:+ format_2f (lat c) +:+ "_"
           +:+ format_2f (lon c) +:+ ".nc").

(** The world [__call__] runs in: the netCDF files on disk (a file
    holds the dataset [to_netcdf] wrote, and [xr.open_dataset] gives
    it back), the lines printed, and, as a ghost record, the group
    and phases of every [_calculate_lookup] invocation. *)
Record World := {
  files : gmap string Dataset;
  stdout : list string;
  sweeps : list (string * list string)
}.

Definition print (line : string) (w : World) : World :=
  {| files := files w; stdout := stdout w ++ [line]; sweeps := sweeps w |}.

Definition note_sweep (group : string) (phases : list string) (w : World)
  : World :=
  {| files := files w; stdout := stdout w;
     sweeps := sweeps w ++ [(group, phases)] |}.

Definition to_netcdf (fname : string) (ds : Dataset) (w : World) : World :=
  {| files := <[fname := ds]> (files w); stdout := stdout w;
     sweeps := sweeps w |}.

(** The loop of [__call__] over [phase_groups.items()] (the items of
    the dictionary, in its order), with the [results] dictionary built so
    far. *)
Fixpoint call_loop (c : PhaseLookupCalculator)
    (items : list (string * list string))
    (results : gmap string Dataset) (w : World)
  : World * Result (gmap string Dataset) :=
  match items with
  | [] => (w, Ok results)
  | (group, phases) :: items' =>
      let fname := _filename c group in
      let w := print ("Loading " +:+ fname) w in
      match files w !! fname with
      | Some ds => call_loop c items' (<[group := ds]> results) w
      | None =>
          let w := note_sweep group phases w in
          match _calculate_lookup c phases with
          | Ok ds =>
              call_loop c items' (<[group := ds]> results)
                        (to_netcdf fname ds w)
          | Raise e => (w, Raise e)
          end
      end
  end.

Definition __call__ (c : PhaseLookupCalculator)
    (phase_groups : list (string * list string)) (w : World)
  : World * Result (gmap string Dataset) :=
  call_loop c phase_groups ∅ w.

End Calculator.

(** *** [plot_velocity_model] *)

(** What the plot reads of one layer of [self.model.layers()]: [ztop],
    [zbot] and the velocities of [layer.material(z)]. *)
Record Material := { vp : float; vs : float }.

Record Layer := {
  ztop : float;
  zbot : float;
  material : float → Material
}.

(** The three lists the loop over the layers extends, as they are when
    the loop ends: [depths], [vp] and [vs]. *)
Definition velocity_profile (layers : list Layer)
  : list float * list float * list float :=
  foldl (λ '(depths, vps, vss) layer,
           let top := ztop layer in
           let bottom := zbot layer in
           let vp_i := vp (material layer top) in
           let vs_i := vs (material layer top) in
           (depths ++ [top; bottom], vps ++ [vp_i; vp_i], vss ++ [vs_i; vs_i]))
        ([], [], []) layers.

(** The curves handed to [ax.plot]: [(vp/1e3, depths/1e3)] and
    [(vs/1e3, depths/1e3)]. *)
Definition plotted_curves (layers : list Layer)
  : (list float * list float) * (list float * list float) :=
  let '(depths, vps, vss) := velocity_profile layers in
  let km := fmap (λ v, v / of_Z 1000) in
  ((km vps, km depths), (km vss, km depths)).

End Helpers.

(** ** [notebooks/interactive_proposal.py] *)

Module InteractiveProposal.

(** A picked point [[x, y]] and a line of them. *)
Abbreviation point := (float * float)%type (only parsing).
Abbreviation polyline := (list point) (only parsing).

(** What the selector prints. *)
Inductive output :=
| LineFinished (total : nat)
| NoCurrentLine
| CurrentLineCleared
| AllCleared
| PointsListing (lines : list polyline).

(** The fields of [PointSelector] the handlers change, with the number of
    [fig.canvas.draw()] calls and the printed lines standing for the
    display and the console.  The lines are plain values: what the code
    stores in [selected_points] and in [result] are copies
    ([self.current_line.copy()], [self.selected_points.copy()]), and
    [current_line] is rebound to a new list, never emptied in place. *)
Record PointSelector := {
  selected_points : list polyline;
  current_line : polyline;
  current_line_index : nat;
  result : option (list polyline);
  redraws : nat;
  printed : list output
}.

(** The state [__init__] sets up before the window is shown. *)
Definition init : PointSelector :=
  {| selected_points := [];
     current_line := [];
     current_line_index := 0;
     result := None;
     redraws := 0;
     printed := [] |}.

(** [if self.current_line:] and [if points:] : a list is true when it is
    not empty. *)
Definition truthy {A} (l : list A) : bool :=
  match l with
  | [] => false
  | _ => true
  end.

Definition on_click (inaxes : bool) (x y : float) (s : PointSelector)
  : PointSelector :=
  if negb inaxes then s
  else
    {| selected_points := selected_points s;
       current_line := current_line s ++ [(x, y)];
       current_line_index := current_line_index s;
       result := result s;
       redraws := S (redraws s);
       printed := printed s |}.

Definition finish_line (s : PointSelector) : PointSelector :=
  if truthy (current_line s) then
    let lines := selected_points s ++ [current_line s] in
    {| selected_points := lines;
       current_line := [];
       current_line_index := S (current_line_index s);
       result := result s;
       redraws := S (redraws s);
       printed := printed s ++ [LineFinished (length lines)] |}
  else s.

Definition new_line (s : PointSelector) : PointSelector :=
  if truthy (current_line s) then finish_line s else s.

Definition clear_current_line (s : PointSelector) : PointSelector :=
  if negb (truthy (current_line s)) then
    {| selected_points := selected_points s;
       current_line := current_line s;
       current_line_index := current_line_index s;
       result := result s;
       redraws := redraws s;
       printed := printed s ++ [NoCurrentLine] |}
  else
    {| selected_points := selected_points s;
       current_line := [];
       current_line_index := current_line_index s;
       result := result s;
       redraws := S (redraws s);
       printed := printed s ++ [CurrentLineCleared] |}.

Definition clear_all (s : PointSelector) : PointSelector :=
  {| selected_points := [];
     current_line := [];
     current_line_index := 0;
     result := result s;
     redraws := S (redraws s);
     printed := printed s ++ [AllCleared] |}.

Definition print_points (s : PointSelector) : PointSelector :=
  let s := if truthy (current_line s) then finish_line s else s in
  let points_to_print :=
    match result s with
    | Some r => if negb (truthy (selected_points s)) && truthy r
                then r else selected_points s
    | None => selected_points s
    end in
  {| selected_points := selected_points s;
     current_line := current_line s;
     current_line_index := current_line_index s;
     result := result s;
     redraws := redraws s;
     printed := printed s ++ [PointsListing points_to_print] |}.

Definition on_close (s : PointSelector) : PointSelector :=
  let lines :=
    if truthy (current_line s)
    then selected_points s ++ [current_line s]
    else selected_points s in
  {| selected_points := lines;
     current_line := current_line s;
     current_line_index := current_line_index s;
     result := Some lines;
     redraws := redraws s;
     printed := printed s |}.

Definition get_result (s : PointSelector) : option (list polyline) :=
  result s.

(** [self.colors] *)
Definition colors : list string :=
  ["blue"; "orange"; "green"; "purple"; "brown"; "pink"; "gray"; "olive";
   "cyan"; "magenta"].

(** [self.colors[self.current_line_index % len(self.colors)]]; [None]
    stands for an index out of range. *)
Definition get_current_color (s : PointSelector) : option string :=
  colors !! (current_line_index s `mod` length colors).

(** What the operator does while the window is open. *)
Inductive event :=
| Click (inaxes : bool) (x y : float)
| NewLine
| FinishLine
| ClearCurrentLine
| ClearAll
| PrintPoints.

Definition handle (s : PointSelector) (e : event) : PointSelector :=
  match e with
  | Click inaxes x y => on_click inaxes x y s
  | NewLine => new_line s
  | FinishLine => finish_line s
  | ClearCurrentLine => clear_current_line s
  | ClearAll => clear_all s
  | PrintPoints => print_points s
  end.

(** [PointSelector(...)]: the constructor shows the window and returns
    when it is closed, after the events of the session and the close
    event have been handled. *)
Definition run_selector (session : list event) : PointSelector :=
  on_close (foldl handle init session).

(** *** [select_points] *)

Inductive diagnostic :=
| Loaded (filename : string)
| FailedToLoad (filename : string)
| Proceeding
| Saved (filename : string)
| FailedToSave (filename : string).

Section Persistence.

(** The content of a file, and [pickle.dump] / [pickle.load] on it;
    [pickle_load] is [None] when loading raises. *)
Variable bytes : Type.
Variable pickle_dump : list polyline → bytes.
Variable pickle_load : bytes → option (list polyline).

(** The files on disk, the paths that cannot be written (creating
    the directory or opening the file there raises), the diagnostics
    printed and the number of interactive sessions launched. *)
Record Env := {
  disk : gmap string bytes;
  read_only : gset string;
  console : list diagnostic;
  sessions : nat
}.

Definition say (d : diagnostic) (e : Env) : Env :=
  {| disk := disk e; read_only := read_only e;
     console := console e ++ [d]; sessions := sessions e |}.

(** [if filename:] for the optional string argument. *)
Definition given (filename : option string) : option string :=
  match filename with
  | Some fn => if bool_decide (fn = "") then None else Some fn
  | None => None
  end.

(** The [try] block that loads the points: [Some points] is the early
    [return points]. *)
Definition load_points (filename : option string) (e : Env)
  : option (list polyline) * Env :=
  match given filename with
  | Some fn =>
      match disk e !! fn with
      | Some content =>
          match pickle_load content with
          | Some points => (Some points, say (Loaded fn) e)
          | None => (None, say Proceeding (say (FailedToLoad fn) e))
          end
      | None => (None, e)
      end
  | None => (None, e)
  end.

(** The [try] block that saves the points. *)
Definition save_points (filename : option string)
    (points : option (list polyline)) (e : Env) : Env :=
  match given filename, points with
  | Some fn, Some pts =>
      if truthy pts then
        if bool_decide (fn ∈ read_only e) then say (FailedToSave fn) e
        else
          say (Saved fn)
              {| disk := <[fn := pickle_dump pts]> (disk e);
                 read_only := read_only e;
                 console := console e; sessions := sessions e |}
      else e
  | _, _ => e
  end.

Definition launch (e : Env) : Env :=
  {| disk := disk e; read_only := read_only e;
     console := console e; sessions := S (sessions e) |}.

(** [select_points(design_space, obstacles, cable_properties, figsize,
    filename)]; the first four arguments only reach the plot, and
    [session] is what the operator does in the window. *)
Definition select_points (session : list event) (filename : option string)
    (e : Env) : option (list polyline) * Env :=
  match load_points filename e with
  | (Some points, e) => (Some points, e)
  | (None, e) =>
      let selector := run_selector session in
      let points := get_result selector in
      (points, save_points filename points (launch e))
  end.

End Persistence.

End InteractiveProposal.

(** * Properties *)

(** Closed decidable facts are settled by evaluation. *)
Ltac by_compute := apply (bool_decide_unpack _); vm_compute; exact I.

(** ** Numbers *)

Module NumericProps.
Local Close Scope Qc_scope.















End NumericProps.

(** ** The point selector *)

Module SelectorProps.
Import InteractiveProposal.

Arguments select_points {bytes} _ _ _ _ _.
Arguments load_points {bytes} _ _ _.
Arguments save_points {bytes} _ _ _ _.
Arguments say {bytes} _ _.
Arguments launch {bytes} _.
Arguments given _ : simpl never.

Lemma truthy_nonempty {A} (l : list A) : l ≠ [] → truthy l = true.
Proof. by destruct l. Qed.

Lemma given_nonempty (fn : string) : fn ≠ "" → given (Some fn) = Some fn.
Proof. intros Hfn. unfold given. by rewrite bool_decide_eq_false_2. Qed.



(** C7.  Closing the window appends a copy of a non-empty line in
    progress to the finished lines; [get_result] then returns the finished
    lines, which are the old ones followed by that line, or exactly the old
    ones when the line in progress is empty. *)
Theorem C7_close_finalizes_current_line (s : PointSelector) :
  get_result (on_close s) = Some (selected_points (on_close s)) ∧
  match current_line s with
  | [] => selected_points (on_close s) = selected_points s
  | _ :: _ => selected_points (on_close s) = selected_points s ++ [current_line s]
  end.
Proof.
  unfold get_result, on_close. simpl.
  destruct (current_line s) as [|p line]; simpl; auto.
Qed.

(** C8.  [finish_line] on an empty current line changes nothing: the
    finished lines, the (empty) current line and the line index are what
    they were, and so is the rest of the selector. *)
Theorem C8_finish_empty_line_is_noop (s : PointSelector) :
  current_line s = [] →
  finish_line s = s ∧
  selected_points (finish_line s) = selected_points s ∧
  current_line (finish_line s) = [] ∧
  current_line_index (finish_line s) = current_line_index s.
Proof.
  intros Hempty. unfold finish_line. rewrite Hempty. simpl. auto.
Qed.

(** A selector with two finished lines and nothing in progress. *)
Definition two_lines : PointSelector :=
  foldl handle init
    [Click true (of_Z 1) (of_Z 2); Click true (of_Z 3) (of_Z 4); FinishLine;
     Click false (of_Z 9) (of_Z 9); Click true (of_Z 5) (of_Z 6); NewLine].

Lemma C8_finish_empty_line_is_noop_witness :
  length (selected_points two_lines) = 2%nat ∧
  current_line two_lines = [] ∧
  finish_line two_lines = two_lines ∧
  selected_points (finish_line two_lines) = selected_points two_lines.
Proof.
  split; [reflexivity|]. split; [reflexivity|].
  destruct (C8_finish_empty_line_is_noop two_lines) as (H1 & H2 & _);
    [reflexivity|].
  exact (conj H1 H2).
Defined.


(** A toy pickle for the examples: the stored object itself, or nothing
    for a file that does not unpickle. *)
Definition stored_line : list polyline :=
  [[(of_Z 1, of_Z 2); (of_Z 3, of_Z 4)]; [(of_Z 5, of_Z 6)]].

Definition env_with (content : option (list polyline)) (ro : gset string)
  : Env (option (list polyline)) :=
  {| disk := {[ "out/points.pkl" := content ]};
     read_only := ro; console := []; sessions := 0 |}.

Definition drawing : list event :=
  [Click true (of_Z 7) (of_Z 8); Click true (of_Z 9) (of_Z 10)].


(** C6.  Whatever non-empty list of polylines the save step of
    [select_points] writes to a path, [select_points] called again with that
    path returns that very list, without a session; and the save step is
    what a first call does with the result of its session when no file is
    there yet.  The serializer is any [pickle_dump] / [pickle_load] pair
    that loads what it dumped. *)
Theorem C6_save_load_round_trip {bytes}
    (dump : list polyline → bytes) (load : bytes → option (list polyline))
    (fn : string) (pts : list polyline) (e : Env bytes) :
  (∀ l, load (dump l) = Some l) →
  fn ≠ "" → pts ≠ [] → fn ∉ read_only bytes e →
  (∀ session,
      select_points dump load session (Some fn)
                    (save_points dump (Some fn) (Some pts) e)
        = (Some pts,
           say (Loaded fn) (save_points dump (Some fn) (Some pts) e))) ∧
  (∀ first_session session,
      disk bytes e !! fn = None →
      get_result (run_selector first_session) = Some pts →
      select_points dump load first_session (Some fn) e
        = (Some pts, save_points dump (Some fn) (Some pts) (launch e)) ∧
      (select_points dump load session (Some fn)
         (select_points dump load first_session (Some fn) e).2).1
        = Some pts).
Proof.
  intros Hpickle Hfn Hpts Hrw.
  assert (Hsaved : ∀ e0 : Env bytes, read_only bytes e0 = read_only bytes e →
            disk bytes (save_points dump (Some fn) (Some pts) e0) !! fn
              = Some (dump pts)).
  { intros e0 Hro. unfold save_points.
    rewrite (given_nonempty fn Hfn), (truthy_nonempty pts Hpts).
    rewrite bool_decide_eq_false_2 by (by rewrite Hro).
    simpl. apply lookup_insert_eq. }
  assert (Hreload : ∀ (e0 : Env bytes) session,
            read_only bytes e0 = read_only bytes e →
            select_points dump load session (Some fn)
                          (save_points dump (Some fn) (Some pts) e0)
              = (Some pts,
                 say (Loaded fn) (save_points dump (Some fn) (Some pts) e0))).
  { intros e0 session Hro. unfold select_points, load_points.
    rewrite (given_nonempty fn Hfn), (Hsaved e0 Hro), Hpickle. done. }
  split.
  - intros session. by apply Hreload.
  - intros first_session session Hnofile Hres.
    assert (Hfirst : select_points dump load first_session (Some fn) e
              = (Some pts, save_points dump (Some fn) (Some pts) (launch e))).
    { unfold select_points, load_points.
      rewrite (given_nonempty fn Hfn), Hnofile, Hres. done. }
    split; [exact Hfirst|].
    rewrite Hfirst. simpl. by rewrite Hreload.
Qed.

Lemma C6_save_load_round_trip_witness :
  (select_points Some id [] (Some "out/points.pkl")
     (save_points Some (Some "out/points.pkl") (Some stored_line)
                  {| disk := ∅; read_only := ∅; console := [];
                     sessions := 0 |})).1
    = Some stored_line ∧
  (select_points Some id [ClearAll] (Some "out/points.pkl")
     (select_points Some id drawing (Some "out/points.pkl")
        {| disk := ∅; read_only := ∅; console := [];
           sessions := 0 |}).2).1
    = Some [[(of_Z 7, of_Z 8); (of_Z 9, of_Z 10)]].
Proof.
  split.
  - destruct (C6_save_load_round_trip Some id "out/points.pkl" stored_line
                {| disk := ∅; read_only := ∅; console := [];
                   sessions := 0 |}) as [Hreload _];
      [reflexivity|discriminate|discriminate|apply not_elem_of_empty|].
    rewrite (Hreload []). reflexivity.
  - destruct (C6_save_load_round_trip Some id "out/points.pkl"
                [[(of_Z 7, of_Z 8); (of_Z 9, of_Z 10)]]
                {| disk := ∅; read_only := ∅; console := [];
                   sessions := 0 |}) as [_ Hcalls];
      [reflexivity|discriminate|discriminate|apply not_elem_of_empty|].
    destruct (Hcalls drawing [ClearAll]) as [_ Hsecond];
      [reflexivity|reflexivity|]. exact Hsecond.
Defined.

End SelectorProps.

(** ** The lookup table *)

Module LookupProps.
Import Helpers.
Local Close Scope Qc_scope.

(** *** Arrays *)

Definition has_shape (nr nd ns : nat) (a : array3) : Prop :=
  length a = nr ∧
  ∀ ri plane, a !! ri = Some plane →
    length plane = nd ∧ ∀ j row, plane !! j = Some row → length row = ns.

Lemma get3_Some (a : array3) r j s (c : cell) :
  get3 a r j s = Some c ↔
  ∃ plane row, a !! r = Some plane ∧ plane !! j = Some row ∧ row !! s = Some c.
Proof.
  unfold get3. split.
  - intros H. destruct (a !! r) as [plane|] eqn:Ha; [|done]. simpl in H.
    destruct (plane !! j) as [row|] eqn:Hp; [|done]. simpl in H. eauto.
  - intros (plane & row & -> & Hp & Hr). simpl. rewrite Hp. done.
Qed.

Lemma get3_in_range nr nd ns (a : array3) r j s :
  has_shape nr nd ns a → r < nr → j < nd → s < ns →
  is_Some (get3 a r j s).
Proof.
  intros [Hlen Hplanes] Hr Hj Hs.
  destruct (lookup_lt_is_Some_2 a r) as [plane Hplane]; [lia|].
  destruct (Hplanes r plane Hplane) as [Hnd Hrows].
  destruct (lookup_lt_is_Some_2 plane j) as [row Hrow]; [lia|].
  destruct (lookup_lt_is_Some_2 row s) as [c Hc];
    [rewrite (Hrows j row Hrow); lia|].
  exists c. apply get3_Some. eauto.
Qed.

Lemma get3_Some_in_range nr nd ns (a : list (list (list (option Qc))))
    r j s c :
  has_shape nr nd ns a → get3 a r j s = Some c →
  r < nr ∧ j < nd ∧ s < ns.
Proof.
  intros [Hlen Hplanes] (plane & row & Hp & Hr & Hc)%get3_Some.
  destruct (Hplanes r plane Hp) as [Hnd Hrows].
  pose proof (Hrows j row Hr).
  apply lookup_lt_Some in Hp, Hr, Hc. lia.
Qed.

Lemma full_nan_shape nr nd ns : has_shape nr nd ns (full_nan nr nd ns).
Proof.
  unfold full_nan. split; [apply length_replicate|].
  intros ri plane [-> _]%lookup_replicate.
  split; [apply length_replicate|].
  intros j row [-> _]%lookup_replicate. apply length_replicate.
Qed.

Lemma full_nan_get3 nr nd ns r j s (c : cell) :
  get3 (full_nan nr nd ns) r j s = Some c → c = nan.
Proof.
  intros (plane & row & Hp & Hr & Hc)%get3_Some. unfold full_nan in Hp.
  apply lookup_replicate in Hp as [-> _].
  apply lookup_replicate in Hr as [-> _].
  by apply lookup_replicate in Hc as [-> _].
Qed.

(** What [a[ri, :, si] = v] leaves in the cell of distance [j] that held
    [old]. *)
Definition column_value (nd : nat) (v : list float) (j : nat) (old : cell)
  : cell :=
  if decide (length v = nd) then
    match v !! j with
    | Some x => Some x
    | None => old
    end
  else
    match v with
    | [x] => Some x
    | _ => old
    end.

Lemma assign_column_spec nr nd ns (a a' : array3) ri si v :
  has_shape nr nd ns a → ri < nr →
  assign_column a ri si v = Ok a' →
  has_shape nr nd ns a' ∧
  ∀ r j s c0, get3 a r j s = Some c0 →
    get3 a' r j s
      = Some (if decide (r = ri ∧ s = si) then column_value nd v j c0 else c0).
Proof.
  intros [Hlen Hplanes] Hri Hassign.
  destruct (lookup_lt_is_Some_2 a ri) as [plane Hplane]; [lia|].
  destruct (Hplanes ri plane Hplane) as [Hnd Hrows].
  unfold assign_column in Hassign. rewrite Hplane in Hassign.
  simpl in Hassign. subst nd.
  assert (∃ F : nat → list cell → list cell,
            a' = alter (imap F) ri a ∧
            ∀ j row, F j row
              = match (if decide (length v = length plane) then v !! j
                       else head v) with
                | Some x => <[si := Some x]> row
                | None => row
                end ∧
            (length v = length plane ∨ ∃ x, v = [x])) as (F & -> & HF).
  { destruct (decide (length v = length plane)) as [Hv|Hv].
    - eexists. split; [by inversion Hassign|]. intros j row. auto.
    - destruct v as [|x [|y v]]; try done.
      exists (λ _ row, <[si := Some x]> row). split.
      + inversion Hassign. apply list_alter_ext; [|done].
        intros plane' _. symmetry. apply (imap_const (λ row, <[si:=Some x]> row)).
      + intros j row. split; [done|]. right. eauto. }
  split.
  - split; [by rewrite length_alter|].
    intros r plane' Hr.
    destruct (decide (ri = r)) as [<-|Hne].
    + rewrite list_lookup_alter_eq, Hplane in Hr. simplify_eq/=.
      split; [by rewrite length_imap|].
      intros j row' Hrow'. rewrite list_lookup_imap in Hrow'.
      destruct (plane !! j) as [row|] eqn:Hrow; [|done]. simplify_eq/=.
      destruct (HF j row) as [-> _].
      destruct (if decide (length v = length plane) then v !! j else head v);
        [rewrite length_insert|]; by apply (Hrows j).
    + rewrite list_lookup_alter_ne in Hr by done. by eapply Hplanes.
  - intros r j s c0 (plane0 & row & Hp & Hr & Hc)%get3_Some.
    destruct (decide (r = ri ∧ s = si)) as [[-> ->]|Hsame].
    + assert (plane = plane0) as -> by congruence.
      apply get3_Some. exists (imap F plane0), (F j row).
      split; [by rewrite list_lookup_alter_eq, Hplane|].
      split; [by rewrite list_lookup_imap, Hr|].
      destruct (HF j row) as [-> Hv]. unfold column_value.
      assert (j < length plane0) by (by eapply lookup_lt_Some).
      destruct (decide (length v = length plane0)) as [Hlenv|Hlenv].
      * destruct (lookup_lt_is_Some_2 v j) as [x ->]; [lia|].
        apply list_lookup_insert_eq. by eapply lookup_lt_Some.
      * destruct Hv as [?|[x ->]]; [done|]. simpl.
        apply list_lookup_insert_eq. by eapply lookup_lt_Some.
    + apply get3_Some.
      destruct (decide (ri = r)) as [<-|Hne].
      * assert (plane = plane0) as -> by congruence.
        exists (imap F plane0), (F j row).
        split; [by rewrite list_lookup_alter_eq, Hplane|].
        split; [by rewrite list_lookup_imap, Hr|].
        destruct (HF j row) as [-> _].
        destruct (if decide (length v = length plane0) then v !! j
                  else head v); [|done].
        rewrite list_lookup_insert_ne; [done|].
        intros <-. by apply Hsame.
      * exists plane0, row.
        split; [by rewrite list_lookup_alter_ne|]. done.
Qed.

Lemma assign_column_ok nr nd ns (a : array3) ri si v :
  has_shape nr nd ns a → ri < nr →
  length v = nd ∨ length v = 1 →
  ∃ a', assign_column a ri si v = Ok a'.
Proof.
  intros [Hlen Hplanes] Hri Hv.
  destruct (lookup_lt_is_Some_2 a ri) as [plane Hplane]; [lia|].
  destruct (Hplanes ri plane Hplane) as [Hnd _].
  unfold assign_column. rewrite Hplane. simpl. rewrite Hnd.
  case_decide; [eauto|].
  destruct Hv as [?|Hv]; [done|].
  destruct v as [|x [|y v]]; try done. eauto.
Qed.

Lemma assign_column_Ok_length nr nd ns (a a' : list (list (list (option Qc))))
    ri si v :
  has_shape nr nd ns a → ri < nr →
  assign_column a ri si v = Ok a' →
  length v = nd ∨ length v = 1.
Proof.
  intros [Hlen Hplanes] Hri Hassign.
  destruct (lookup_lt_is_Some_2 a ri) as [plane Hplane]; [lia|].
  destruct (Hplanes ri plane Hplane) as [Hnd _].
  unfold assign_column in Hassign. rewrite Hplane in Hassign.
  simpl in Hassign. rewrite Hnd in Hassign.
  case_decide; [by left|].
  destruct v as [|x [|y v]]; try done. by right.
Qed.

(** *** Loops *)

Lemma for_each_offset_inv {A St} (body : St → nat * A → Result St)
    (Inv : nat → St → Prop) (l : list A) (k : nat) (s s' : St) :
  Inv k s →
  (∀ i x s0 s1, l !! i = Some x → Inv (k + i) s0 →
                body s0 (k + i, x) = Ok s1 → Inv (S (k + i)) s1) →
  for_each body (imap (λ i x, (k + i, x)) l) s = Ok s' →
  Inv (k + length l) s'.
Proof.
  revert k s. induction l as [|x l IH]; intros k s Hinv Hstep Hrun.
  - simpl in *. inversion Hrun; subst. by rewrite Nat.add_0_r.
  - rewrite imap_cons in Hrun. simpl in Hrun.
    destruct (body s (k + 0, x)) as [s1|e] eqn:Hbody; [|done].
    simpl in Hrun.
    replace (k + length (x :: l)) with (S k + length l) by (simpl; lia).
    apply (IH (S k) s1).
    + specialize (Hstep 0 x s s1). rewrite Nat.add_0_r in *. by apply Hstep.
    + intros i y s0 s2 Hy.
      replace (S k + i) with (k + S i) by lia. by apply Hstep.
    + erewrite imap_ext; [exact Hrun|].
      intros i y _. simpl. f_equal. lia.
Qed.

Lemma for_each_enumerate_inv {A St} (body : St → nat * A → Result St)
    (Inv : nat → St → Prop) (l : list A) (s s' : St) :
  Inv 0 s →
  (∀ i x s0 s1, l !! i = Some x → Inv i s0 →
                body s0 (i, x) = Ok s1 → Inv (S i) s1) →
  for_each body (enumerate l) s = Ok s' →
  Inv (length l) s'.
Proof.
  intros Hinv Hstep Hrun.
  apply (for_each_offset_inv body Inv l 0 s s'); [done| |done].
  intros i x s0 s1. simpl. apply Hstep.
Qed.

Lemma for_each_offset_ok {A St} (body : St → nat * A → Result St)
    (Inv : nat → St → Prop) (l : list A) (k : nat) (s : St) :
  Inv k s →
  (∀ i x s0, l !! i = Some x → Inv (k + i) s0 →
             ∃ s1, body s0 (k + i, x) = Ok s1 ∧ Inv (S (k + i)) s1) →
  ∃ s', for_each body (imap (λ i x, (k + i, x)) l) s = Ok s'
        ∧ Inv (k + length l) s'.
Proof.
  revert k s. induction l as [|x l IH]; intros k s Hinv Hstep.
  - exists s. simpl. by rewrite Nat.add_0_r.
  - rewrite imap_cons. simpl.
    destruct (Hstep 0 x s) as (s1 & Hbody & Hinv1);
      [done|by rewrite Nat.add_0_r|].
    rewrite Hbody. simpl. rewrite Nat.add_0_r in Hinv1.
    destruct (IH (S k) s1) as (s' & Hrun & Hinv'); [done| |].
    + intros i y s0 Hy.
      replace (S k + i) with (k + S i) by lia. by apply Hstep.
    + exists s'. split.
      * erewrite imap_ext; [exact Hrun|].
        intros i y _. simpl. f_equal. lia.
      * by replace (k + S (length l)) with (S k + length l) by lia.
Qed.

Lemma for_each_enumerate_ok {A St} (body : St → nat * A → Result St)
    (Inv : nat → St → Prop) (l : list A) (s : St) :
  Inv 0 s →
  (∀ i x s0, l !! i = Some x → Inv i s0 →
             ∃ s1, body s0 (i, x) = Ok s1 ∧ Inv (S i) s1) →
  ∃ s', for_each body (enumerate l) s = Ok s' ∧ Inv (length l) s'.
Proof.
  intros Hinv Hstep.
  apply (for_each_offset_ok body Inv l 0 s); [done|].
  intros i x s0. simpl. apply Hstep.
Qed.

(** *** One (receiver, source) pair *)

Definition wf (nr nd ns : nat) (ds : Dataset) : Prop :=
  ∀ q, has_shape nr nd ns (values ds q).

Lemma values_set_values ds q q' a :
  values (set_values ds q a) q' = if decide (q' = q) then a else values ds q'.
Proof. by destruct q, q'. Qed.

(** The rows [df.loc[df.groupby('distance')['arrival_time'].idxmin()]]
    keeps (none for the empty table). *)
Definition pair_rows (df : list Row) : list Row :=
  match groupby_idxmin df with
  | Ok labels => loc df labels
  | Raise _ => []
  end.

(** What the loop body leaves in the cell of quantity [q] and distance
    [j] of its own pair, which held [old]. *)
Definition pair_cell (nd : nat) (df : list Row) (q : quantity) (j : nat)
    (old : cell) : cell :=
  match df with
  | [] => old
  | _ => column_value nd (column q <$> pair_rows df) j old
  end.

(** The tables for which the loop body does not raise. *)
Definition pair_ok (nd : nat) (df : list Row) : Prop :=
  df = [] ∨ length (pair_rows df) = nd ∨ length (pair_rows df) = 1.

Section Pair.
Variables (nr nd ns : nat) (rows : list Row) (ri si : nat).
Hypothesis Hri : ri < nr.

Lemma write_quantity_spec ds ds' q :
  wf nr nd ns ds →
  write_quantity rows ri si ds q = Ok ds' →
  wf nr nd ns ds' ∧
  ∀ q' r j s c0, get3 (values ds q') r j s = Some c0 →
    get3 (values ds' q') r j s
      = Some (if decide (q' = q ∧ r = ri ∧ s = si)
              then column_value nd (column q <$> rows) j c0 else c0).
Proof.
  intros Hwf Hw. unfold write_quantity in Hw.
  destruct (assign_column (values ds q) ri si (column q <$> rows))
    as [a'|e] eqn:Ha; [|done].
  simpl in Hw. inversion Hw; subst ds'.
  destruct (assign_column_spec nr nd ns _ _ _ _ _ (Hwf q) Hri Ha)
    as [Hshape Hcells].
  split.
  - intros q'. rewrite values_set_values. by case_decide.
  - intros q' r j s c0 Hget. rewrite values_set_values.
    destruct (decide (q' = q)) as [->|Hq].
    + rewrite (Hcells r j s c0 Hget). f_equal.
      repeat case_decide; try done; tauto.
    + rewrite Hget. f_equal. case_decide; [tauto|done].
Qed.

Lemma write_each_spec (ql : list quantity) ds ds' :
  NoDup ql →
  wf nr nd ns ds →
  for_each (write_quantity rows ri si) ql ds = Ok ds' →
  wf nr nd ns ds' ∧
  ∀ q r j s c0, get3 (values ds q) r j s = Some c0 →
    get3 (values ds' q) r j s
      = Some (if decide (q ∈ ql ∧ r = ri ∧ s = si)
              then column_value nd (column q <$> rows) j c0 else c0).
Proof.
  revert ds. induction ql as [|q0 ql IH]; intros ds Hnodup Hwf Hrun.
  - simpl in Hrun. inversion Hrun; subst. split; [done|].
    intros q r j s c0 ->. rewrite decide_False; [done|].
    intros [H _]. by apply elem_of_nil in H.
  - apply NoDup_cons in Hnodup as [Hfresh Hnodup]. simpl in Hrun.
    destruct (write_quantity rows ri si ds q0) as [ds1|e] eqn:Hw; [|done].
    simpl in Hrun.
    destruct (write_quantity_spec ds ds1 q0 Hwf Hw) as [Hwf1 Hcells1].
    destruct (IH ds1 Hnodup Hwf1 Hrun) as [Hwf' Hcells'].
    split; [done|].
    intros q r j s c0 Hget.
    rewrite (Hcells' q r j s _ (Hcells1 q r j s c0 Hget)). f_equal.
    destruct (decide (q = q0)) as [->|Hq].
    + rewrite (decide_False (P := q0 ∈ ql ∧ _)) by tauto.
      destruct (decide (r = ri ∧ s = si)) as [Hsame|Hsame].
      * rewrite !decide_True; [done| |done].
        split; [apply list_elem_of_here|done].
      * rewrite !decide_False; [done| |]; tauto.
    + rewrite (decide_False (P := q = q0 ∧ _)) by tauto.
      destruct (decide (q ∈ ql ∧ r = ri ∧ s = si)) as [Hin|Hin].
      * rewrite decide_True; [done|].
        destruct Hin as [Hin Hsame]. split; [by apply list_elem_of_further|done].
      * rewrite decide_False; [done|].
        intros [[?|?]%elem_of_cons ?]; [done|]. by apply Hin.
Qed.

Lemma write_each_ok (ql : list quantity) ds :
  wf nr nd ns ds →
  length rows = nd ∨ length rows = 1 →
  ∃ ds', for_each (write_quantity rows ri si) ql ds = Ok ds'.
Proof.
  intros Hwf Hlen. revert ds Hwf.
  induction ql as [|q0 ql IH]; intros ds Hwf; [by eexists|].
  simpl.
  destruct (assign_column_ok nr nd ns (values ds q0) ri si
              (column q0 <$> rows) (Hwf q0) Hri) as [a' Ha].
  { by rewrite length_fmap. }
  assert (Hw : write_quantity rows ri si ds q0 = Ok (set_values ds q0 a')).
  { unfold write_quantity. by rewrite Ha. }
  rewrite Hw. simpl. apply IH.
  by destruct (write_quantity_spec _ _ _ Hwf Hw).
Qed.

End Pair.

(** *** Grouping by distance *)

Definition by_label (a b : nat * Row) : Prop := a.1 < b.1.

Lemma enumerate_spec (df : list Row) i r :
  (i, r) ∈ enumerate df ↔ df !! i = Some r.
Proof.
  unfold enumerate. rewrite elem_of_lookup_imap. split.
  - by intros (i' & r' & [= -> ->] & H).
  - intros H. by exists i, r.
Qed.

Lemma labelled_sorted (l : list Row) k :
  StronglySorted by_label (imap (λ i x, (k + i, x)) l).
Proof.
  revert k. induction l as [|x l IH]; intros k; [constructor|].
  rewrite imap_cons. constructor.
  - erewrite imap_ext; [apply (IH (S k))|].
    intros i y _. simpl. f_equal. lia.
  - apply Forall_forall. intros [i' y] (i & z & [= -> ->] & _)%elem_of_lookup_imap.
    unfold by_label. simpl. lia.
Qed.

Lemma StronglySorted_filter_by_label (P : nat * Row → Prop)
    `{!∀ x, Decision (P x)} g :
  StronglySorted by_label g → StronglySorted by_label (filter P g).
Proof.
  induction 1 as [|x g Hg IH Hx]; [constructor|].
  rewrite filter_cons. case_decide; [|done].
  constructor; [done|].
  apply Forall_forall. intros y [_ Hy]%list_elem_of_filter.
  by eapply Forall_forall in Hx.
Qed.

Lemma group_spec (df : list Row) k i r :
  (i, r) ∈ group df k ↔ df !! i = Some r ∧ r_distance r = k.
Proof.
  unfold group. rewrite list_elem_of_filter, enumerate_spec. simpl. tauto.
Qed.

Lemma group_sorted (df : list Row) k : StronglySorted by_label (group df k).
Proof.
  apply StronglySorted_filter_by_label.
  apply (labelled_sorted df 0).
Qed.

(** [idxmin] picks a row of smallest arrival time, and among those the
    one with the smallest label. *)
Lemma idxmin_spec g i r :
  StronglySorted by_label g →
  idxmin g = Some (i, r) →
  (i, r) ∈ g ∧
  ∀ i' r', (i', r') ∈ g →
    (r_arrival_time r <= r_arrival_time r')%Qc ∧
    (r_arrival_time r' = r_arrival_time r → i ≤ i').
Proof.
  intros Hsorted. revert i r.
  induction Hsorted as [|[i0 r0] g Hg IH Hfirst]; intros i r Hmin; [done|].
  simpl in Hmin.
  destruct (idxmin g) as [[i1 r1]|] eqn:Hrest.
  - destruct (IH i1 r1 eq_refl) as [Hin Hleast].
    case_decide as Hlt; inversion Hmin; subst i r.
    + split; [by apply list_elem_of_further|].
      intros i' r' [[= -> ->]|Hin']%elem_of_cons; [|by apply Hleast].
      split; [by apply Qclt_le_weak|].
      intros Heq. rewrite Heq in Hlt. by apply Qclt_not_eq in Hlt.
    + split; [apply list_elem_of_here|].
      apply Qcnot_lt_le in Hlt.
      intros i' r' [[= -> ->]|Hin']%elem_of_cons;
        [split; [apply Qcle_refl|lia]|].
      split.
      * eapply Qcle_trans; [exact Hlt|]. exact (proj1 (Hleast i' r' Hin')).
      * intros _. eapply Forall_forall in Hfirst; [|exact Hin'].
        unfold by_label in Hfirst. simpl in Hfirst. lia.
  - inversion Hmin; subst i r. destruct g as [|[i2 r2] g].
    + split; [apply list_elem_of_here|].
      intros i' r' [[= -> ->]|Hin']%elem_of_cons;
        [split; [apply Qcle_refl|lia]|].
      by apply elem_of_nil in Hin'.
    + simpl in Hrest. destruct (idxmin g) as [[? ?]|]; [case_decide|]; done.
Qed.

Lemma idxmin_is_Some g : g ≠ [] → is_Some (idxmin g).
Proof.
  destruct g as [|[i r] g]; [done|]. intros _. simpl.
  destruct (idxmin g) as [[i' r']|]; [case_decide|]; eauto.
Qed.

(** The row kept for the distance [k]. *)
Definition best (df : list Row) (k : Qc) : option Row :=
  snd <$> idxmin (group df k).

Lemma best_spec df k r :
  best df k = Some r →
  ∃ i, df !! i = Some r ∧ r_distance r = k ∧
    ∀ i' r', df !! i' = Some r' → r_distance r' = k →
      (r_arrival_time r <= r_arrival_time r')%Qc ∧
      (r_arrival_time r' = r_arrival_time r → i ≤ i').
Proof.
  unfold best. intros Hbest.
  destruct (idxmin (group df k)) as [[i r0]|] eqn:Hmin; [|done].
  simpl in Hbest. inversion Hbest; subst r0.
  destruct (idxmin_spec _ i r (group_sorted df k) Hmin) as [Hin Hleast].
  apply group_spec in Hin as [Hi Hk].
  exists i. split; [done|]. split; [done|].
  intros i' r' Hi' Hk'. apply Hleast. by apply group_spec.
Qed.

Lemma best_is_Some df k : k ∈ r_distance <$> df → is_Some (best df k).
Proof.
  intros (r & -> & Hr)%list_elem_of_fmap.
  apply list_elem_of_lookup in Hr as [i Hi].
  unfold best. destruct (idxmin_is_Some (group df (r_distance r))) as [x ->].
  - intros Hnil. assert ((i, r) ∈ group df (r_distance r)) as Hin
      by (by apply group_spec).
    rewrite Hnil in Hin. by apply elem_of_nil in Hin.
  - by eexists.
Qed.

Lemma groupby_keys_elem_of df k :
  k ∈ groupby_keys df ↔ k ∈ r_distance <$> df.
Proof.
  unfold groupby_keys.
  by rewrite merge_sort_Permutation, elem_of_remove_dups.
Qed.

Lemma groupby_keys_NoDup df : NoDup (groupby_keys df).
Proof.
  unfold groupby_keys. rewrite merge_sort_Permutation.
  apply NoDup_remove_dups.
Qed.


(** The kept rows are, key by key, the best rows of the groups. *)
Lemma loc_idxmin_keys df ks :
  (∀ k, k ∈ ks → k ∈ r_distance <$> df) →
  Forall2 (λ k r, best df k = Some r) ks
          (loc df (omap (λ k, fst <$> idxmin (group df k)) ks)).
Proof.
  induction ks as [|k ks IH]; intros Hks; [constructor|].
  destruct (best_is_Some df k) as [r Hr]; [apply Hks, list_elem_of_here|].
  pose proof Hr as Hr'. unfold best in Hr'.
  destruct (idxmin (group df k)) as [[i r0]|] eqn:Hmin; [|done].
  simpl in Hr'. inversion Hr'; subst r0.
  destruct (idxmin_spec _ i r (group_sorted df k) Hmin) as [Hin _].
  apply group_spec in Hin as [Hi _].
  unfold loc. simpl. rewrite Hmin. simpl. rewrite Hi.
  constructor; [done|]. apply IH.
  intros k' Hk'. by apply Hks, list_elem_of_further.
Qed.

Lemma pair_rows_keys df :
  df ≠ [] →
  Forall2 (λ k r, best df k = Some r) (groupby_keys df) (pair_rows df).
Proof.
  intros Hdf. unfold pair_rows, groupby_idxmin.
  destruct df as [|r0 df]; [done|].
  apply loc_idxmin_keys. intros k. by rewrite groupby_keys_elem_of.
Qed.

(** *** The whole sweep *)

Lemma quantities_NoDup : NoDup quantities.
Proof. by apply (bool_decide_unpack _). Qed.

Lemma quantities_all q : q ∈ quantities.
Proof. destruct q; by apply (bool_decide_unpack _). Qed.

Section Sweep.
Variables d2m m2d : Qc.
Variable c : PhaseLookupCalculator.
Variable phases : list string.

Abbreviation nr := (length (receiver_depth_grid c)).
Abbreviation nd := (length (distance_grid c)).
Abbreviation ns := (length (source_depth_grid c)).

(** The table [pd.DataFrame(df_list)] of one pair. *)
Definition pair_df (rec_depth src_depth : Qc) : list Row :=
  row_of d2m <$> arrivals m2d c phases rec_depth src_depth.

(** The cell of quantity [q] at indices [(r, j, s)] once the sweep is
    over. *)
Definition final_cell (q : quantity) (r j s : nat) : option Qc :=
  match receiver_depth_grid c !! r, source_depth_grid c !! s with
  | Some rd, Some sd => pair_cell nd (pair_df rd sd) q j nan
  | _, _ => nan
  end.

Lemma empty_dataset_wf : wf nr nd ns (empty_dataset c).
Proof. intros q. destruct q; apply full_nan_shape. Qed.

Lemma empty_dataset_get3 q r j s :
  r < nr → j < nd → s < ns →
  get3 (values (empty_dataset c) q) r j s = Some nan.
Proof.
  intros Hr Hj Hs.
  destruct (get3_in_range nr nd ns (values (empty_dataset c) q) r j s
              (empty_dataset_wf q) Hr Hj Hs) as [c0 Hc0].
  rewrite Hc0. f_equal.
  destruct q; by apply full_nan_get3 in Hc0.
Qed.

Lemma lookup_pair_spec ds ds' ri rd si sd :
  ri < nr → wf nr nd ns ds →
  lookup_pair d2m m2d c phases ri rd ds (si, sd) = Ok ds' →
  wf nr nd ns ds' ∧
  ∀ q r j s c0, get3 (values ds q) r j s = Some c0 →
    get3 (values ds' q) r j s
      = Some (if decide (r = ri ∧ s = si)
              then pair_cell nd (pair_df rd sd) q j c0 else c0).
Proof.
  intros Hri Hwf Hrun. unfold lookup_pair in Hrun.
  fold (pair_df rd sd) in Hrun. unfold pair_cell, pair_rows.
  destruct (pair_df rd sd) as [|row0 df] eqn:Hdf.
  - simpl in Hrun. inversion Hrun; subst ds'. split; [done|].
    intros q r j s c0 ->. by case_decide.
  - simpl in Hrun. simpl.
    destruct (write_each_spec nr nd ns _ ri si Hri quantities ds ds'
                quantities_NoDup Hwf Hrun) as [Hwf' Hcells].
    split; [done|].
    intros q r j s c0 Hget. rewrite (Hcells q r j s c0 Hget). f_equal.
    pose proof (quantities_all q).
    repeat case_decide; try done; tauto.
Qed.

Lemma lookup_pair_ok ds ri rd si sd :
  ri < nr → wf nr nd ns ds →
  pair_ok nd (pair_df rd sd) →
  ∃ ds', lookup_pair d2m m2d c phases ri rd ds (si, sd) = Ok ds'.
Proof.
  intros Hri Hwf Hok. unfold lookup_pair. fold (pair_df rd sd).
  unfold pair_ok, pair_rows in Hok.
  destruct (pair_df rd sd) as [|row0 df] eqn:Hdf; [by eexists|].
  destruct Hok as [?|Hlen]; [done|]. simpl in *.
  by apply (write_each_ok nr nd ns _ ri si Hri quantities ds Hwf).
Qed.

Lemma lookup_pair_Ok_inv ds ds' ri rd si sd :
  ri < nr → wf nr nd ns ds →
  lookup_pair d2m m2d c phases ri rd ds (si, sd) = Ok ds' →
  pair_ok nd (pair_df rd sd).
Proof.
  intros Hri Hwf Hrun. unfold lookup_pair in Hrun.
  fold (pair_df rd sd) in Hrun. unfold pair_ok, pair_rows.
  destruct (pair_df rd sd) as [|row0 df] eqn:Hdf; [by left|].
  right. simpl in Hrun. simpl.
  set (rows := loc (row0 :: df) _) in *.
  destruct (write_quantity rows ri si ds arrival_time)
    as [ds1|e] eqn:Hw; [|done].
  unfold write_quantity in Hw.
  destruct (assign_column (values ds arrival_time) ri si
              (column arrival_time <$> rows)) as [a'|e] eqn:Ha; [|done].
  apply (assign_column_Ok_length nr nd ns) in Ha; [|apply Hwf|done].
  by rewrite length_fmap in Ha.
Qed.

(** The invariant of the nested loops: the pairs already visited did
    not raise and hold their final cells, the others are still
    not-a-number. *)
Definition visited (r0 s0 : nat) (r s : nat) : Prop :=
  r < r0 ∨ (r = r0 ∧ s < s0).

#[local] Instance visited_dec r0 s0 r s : Decision (visited r0 s0 r s).
Proof. unfold visited. apply _. Defined.

Definition sweep_inv (r0 s0 : nat) (ds : Dataset) : Prop :=
  wf nr nd ns ds ∧
  (∀ r rd s sd,
      receiver_depth_grid c !! r = Some rd →
      source_depth_grid c !! s = Some sd →
      visited r0 s0 r s → pair_ok nd (pair_df rd sd)) ∧
  ∀ q r j s, r < nr → j < nd → s < ns →
    get3 (values ds q) r j s
      = Some (if decide (visited r0 s0 r s) then final_cell q r j s
              else nan).

Lemma sweep_inv_init : sweep_inv 0 0 (empty_dataset c).
Proof.
  split; [apply empty_dataset_wf|]. split.
  - unfold visited. intros; lia.
  - intros q r j s Hr Hj Hs. rewrite empty_dataset_get3 by done.
    rewrite decide_False; [done|]. unfold visited. lia.
Qed.

Lemma sweep_inv_next_row r0 ds :
  sweep_inv r0 ns ds → sweep_inv (S r0) 0 ds.
Proof.
  intros (Hwf & Hoks & Hcells). split; [done|]. split.
  - intros r rd s sd Hrd Hsd Hvis. apply (Hoks r rd s sd Hrd Hsd).
    apply lookup_lt_Some in Hsd. unfold visited in *. lia.
  - intros q r j s Hr Hj Hs. rewrite (Hcells q r j s) by done. f_equal.
    unfold visited. repeat case_decide; try done; lia.
Qed.

Lemma sweep_inv_step ri rd si sd ds ds' :
  receiver_depth_grid c !! ri = Some rd →
  source_depth_grid c !! si = Some sd →
  sweep_inv ri si ds →
  lookup_pair d2m m2d c phases ri rd ds (si, sd) = Ok ds' →
  sweep_inv ri (S si) ds'.
Proof.
  intros Hrd Hsd (Hwf & Hoks & Hcells) Hrun.
  assert (ri < nr) as Hri by (by eapply lookup_lt_Some).
  destruct (lookup_pair_spec ds ds' ri rd si sd Hri Hwf Hrun)
    as [Hwf' Hcells'].
  split; [done|]. split.
  - intros r rd' s sd' Hrd' Hsd' Hvis.
    destruct (decide (r = ri ∧ s = si)) as [[-> ->]|Hother].
    + assert (rd' = rd) as -> by congruence.
      assert (sd' = sd) as -> by congruence.
      exact (lookup_pair_Ok_inv ds ds' ri rd si sd Hri Hwf Hrun).
    + apply (Hoks r rd' s sd' Hrd' Hsd'). unfold visited in *. lia.
  - intros q r j s Hr Hj Hs.
    rewrite (Hcells' q r j s _ (Hcells q r j s Hr Hj Hs)). f_equal.
    destruct (decide (r = ri ∧ s = si)) as [[-> ->]|Hother].
    + rewrite decide_False by (unfold visited; lia).
      rewrite decide_True by (unfold visited; lia).
      unfold final_cell. by rewrite Hrd, Hsd.
    + unfold visited. repeat case_decide; try done; lia.
Qed.

(** If all goes well, every cell holds what its pair wrote. *)
Lemma sweep_cells ds :
  _calculate_lookup d2m m2d c phases = Ok ds →
  wf nr nd ns ds ∧
  (∀ r rd s sd,
      receiver_depth_grid c !! r = Some rd →
      source_depth_grid c !! s = Some sd →
      pair_ok nd (pair_df rd sd)) ∧
  ∀ q r j s, r < nr → j < nd → s < ns →
    get3 (values ds q) r j s = Some (final_cell q r j s).
Proof.
  intros Hrun. unfold _calculate_lookup in Hrun.
  apply (for_each_enumerate_inv _ (λ r0, sweep_inv r0 0)) in Hrun.
  - destruct Hrun as (Hwf & Hoks & Hcells). split; [done|]. split.
    + intros r rd s sd Hrd Hsd. apply (Hoks r rd s sd Hrd Hsd).
      apply lookup_lt_Some in Hrd. unfold visited. lia.
    + intros q r j s Hr Hj Hs. rewrite (Hcells q r j s) by done.
      rewrite decide_True; [done|]. unfold visited. lia.
  - apply sweep_inv_init.
  - intros ri rd ds0 ds1 Hrd Hinv Hinner.
    apply sweep_inv_next_row.
    apply (for_each_enumerate_inv _ (sweep_inv ri)) in Hinner; [done|done|].
    intros si sd ds2 ds3 Hsd Hinv2 Hpair. by eapply sweep_inv_step.
Qed.

(** The sweep completes when no pair's table has a number of distinct
    distances other than none, one, or all of the grid. *)
Lemma sweep_ok :
  (∀ r rd s sd,
      receiver_depth_grid c !! r = Some rd →
      source_depth_grid c !! s = Some sd →
      pair_ok nd (pair_df rd sd)) →
  ∃ ds, _calculate_lookup d2m m2d c phases = Ok ds.
Proof.
  intros Hok. unfold _calculate_lookup.
  destruct (for_each_enumerate_ok
              (λ ds '(ri, rec_depth),
                 for_each (lookup_pair d2m m2d c phases ri rec_depth)
                          (enumerate (source_depth_grid c)) ds)
              (λ r0, sweep_inv r0 0) (receiver_depth_grid c)
              (empty_dataset c)) as (ds & Hrun & _).
  - apply sweep_inv_init.
  - intros ri rd ds0 Hrd Hinv.
    assert (ri < nr) as Hri by (by eapply lookup_lt_Some).
    destruct (for_each_enumerate_ok
                (lookup_pair d2m m2d c phases ri rd)
                (sweep_inv ri) (source_depth_grid c) ds0)
      as (ds1 & Hinner & Hinv1); [done| |].
    + intros si sd ds2 Hsd Hinv2.
      destruct (lookup_pair_ok ds2 ri rd si sd Hri (proj1 Hinv2)
                  (Hok ri rd si sd Hrd Hsd)) as [ds3 Hpair].
      exists ds3. split; [done|]. by eapply sweep_inv_step.
    + exists ds1. split; [done|]. by apply sweep_inv_next_row.
  - by exists ds.
Qed.

End Sweep.

(** *** Distances and the grid *)

Lemma StrictlySorted_NoDup (G : list Qc) : StronglySorted Qclt G → NoDup G.
Proof.
  induction 1 as [|g G HG IH Hg]; constructor; [|done].
  intros Hin. eapply Forall_forall in Hg; [|exact Hin].
  by apply Qclt_not_eq in Hg.
Qed.



Lemma pair_rows_subset df row : row ∈ pair_rows df → row ∈ df.
Proof.
  intros Hrow. destruct df as [|r0 df]; [by apply elem_of_nil in Hrow|].
  apply list_elem_of_lookup in Hrow as [j Hj].
  destruct (Forall2_lookup_r _ _ _ j row
              (pair_rows_keys (r0 :: df) ltac:(done)) Hj) as (k & _ & Hbest).
  apply best_spec in Hbest as (i & Hi & _).
  apply list_elem_of_lookup. eauto.
Qed.


(** *** The claims about [_calculate_lookup] *)

Section Claims.
Variables d2m m2d : Qc.



(** C4.  A (receiver, source) pair for which the tracer returns nothing:
    the loop body returns the dataset as it got it; the sweep completes
    whenever no other pair makes it raise; and in the dataset it returns
    every cell of that pair is not-a-number, for all four quantities. *)
Theorem C4_pair_without_arrivals_left_nan (c : PhaseLookupCalculator)
    (phases : list string) (ri si : nat) (rd sd : Qc) :
  receiver_depth_grid c !! ri = Some rd →
  source_depth_grid c !! si = Some sd →
  arrivals m2d c phases rd sd = [] →
  (∀ ds, lookup_pair d2m m2d c phases ri rd ds (si, sd) = Ok ds) ∧
  ((∀ r rd' s sd',
       receiver_depth_grid c !! r = Some rd' →
       source_depth_grid c !! s = Some sd' →
       (r, s) ≠ (ri, si) →
       pair_ok (length (distance_grid c)) (pair_df d2m m2d c phases rd' sd')) →
   ∃ ds, _calculate_lookup d2m m2d c phases = Ok ds) ∧
  (∀ ds, _calculate_lookup d2m m2d c phases = Ok ds →
         ∀ q j, j < length (distance_grid c) →
                get3 (values ds q) ri j si = Some nan).
Proof.
  intros Hrd Hsd Hnone. split; [|split].
  - intros ds. unfold lookup_pair. by rewrite Hnone.
  - intros Hothers. apply sweep_ok.
    intros r rd' s sd' Hrd' Hsd'.
    destruct (decide ((r, s) = (ri, si))) as [[= -> ->]|Hne].
    + assert (rd' = rd) as -> by congruence.
      assert (sd' = sd) as -> by congruence.
      left. unfold pair_df. by rewrite Hnone.
    + by apply (Hothers r rd' s sd').
  - intros ds Hrun q j Hj.
    destruct (sweep_cells d2m m2d c phases ds Hrun) as (_ & _ & Hcells).
    rewrite (Hcells q ri j si); [|by eapply lookup_lt_Some|done
                                 |by eapply lookup_lt_Some].
    unfold final_cell. rewrite Hrd, Hsd.
    unfold pair_df. by rewrite Hnone.
Qed.

(** The arrival the claim singles out for a distance, given as the
    tracer was asked for it (in degrees): among the arrivals the tracer
    returned at [x], one of smallest arrival time, and the first such in
    the order returned. *)
Definition earliest_at (arrs : list Arrival) (x : Qc) (a : Arrival) : Prop :=
  ∃ i, arrs !! i = Some a ∧ a_x a = x ∧
    ∀ i' a', arrs !! i' = Some a' → a_x a' = x →
      (fabs (a_t a) <= fabs (a_t a'))%Qc ∧
      (fabs (a_t a') = fabs (a_t a) → i ≤ i').

(** The cells of the distance [g], as the claim wants them. *)
Definition cells_hold (ds : Dataset) (ri j si : nat) (a : Arrival) : Prop :=
  get3 (values ds arrival_time) ri j si = Some (Some (fabs (a_t a))) ∧
  get3 (values ds incidence_angle) ri j si
    = Some (Some (fmod (a_incidence_angle a) (of_Z 180))) ∧
  get3 (values ds takeoff_angle) ri j si = Some (Some (a_takeoff_angle a)) ∧
  get3 (values ds efficiency) ri j si = Some (Some (a_efficiency a)).



(** The sweep completes when every pair has arrivals at all the grid
    distances, or none at all. *)
Lemma covered_grid_completes (c : PhaseLookupCalculator)
    (phases : list string) :
  NoDup (distance_grid c) →
  (∀ r rd s sd,
      receiver_depth_grid c !! r = Some rd →
      source_depth_grid c !! s = Some sd →
      arrivals m2d c phases rd sd = [] ∨
      ∀ g, g ∈ distance_grid c ↔
           ∃ a, a ∈ arrivals m2d c phases rd sd ∧ (a_x a * d2m)%Qc = g) →
  ∃ ds, _calculate_lookup d2m m2d c phases = Ok ds.
Proof.
  intros HG Hcov. apply sweep_ok. intros r rd s sd Hrd Hsd.
  unfold pair_ok, pair_df.
  destruct (Hcov r rd s sd Hrd Hsd) as [->|Hall]; [by left|].
  destruct (arrivals m2d c phases rd sd) as [|a0 arrs]; [by left|].
  right. left.
  set (df := row_of d2m <$> a0 :: arrs).
  assert (df ≠ []) as Hdf by done.
  rewrite <-(Forall2_length _ _ _ (pair_rows_keys df Hdf)).
  apply Permutation_length.
  apply NoDup_Permutation; [apply groupby_keys_NoDup|done|].
  intros k. rewrite groupby_keys_elem_of. subst df.
  rewrite <-list_fmap_compose, list_elem_of_fmap, Hall. split.
  - intros (a & -> & Ha). by exists a.
  - intros (a & Ha & <-). by exists a.
Qed.

(** The defect behind C2, in general.  When the tracer reports arrivals
    at some grid distances of a pair and none at the grid distance [g], a
    sweep that completes never leaves the cells of [g] not-a-number: it
    completes only when all the arrivals of the pair are at one distance,
    whose values are then broadcast to every distance. *)
Lemma partial_arrivals_are_never_left_nan (c : PhaseLookupCalculator)
    (phases : list string) (ds : Dataset)
    (ri si j : nat) (rd sd g : Qc) (q : quantity) :
  NoDup (distance_grid c) →
  (∀ a, a ∈ arrivals m2d c phases rd sd →
        (a_x a * d2m)%Qc ∈ distance_grid c) →
  _calculate_lookup d2m m2d c phases = Ok ds →
  receiver_depth_grid c !! ri = Some rd →
  source_depth_grid c !! si = Some sd →
  distance_grid c !! j = Some g →
  arrivals m2d c phases rd sd ≠ [] →
  (∀ a, a ∈ arrivals m2d c phases rd sd → (a_x a * d2m)%Qc ≠ g) →
  ∃ x, get3 (values ds q) ri j si = Some (Some x).
Proof.
  intros HG Hsub Hrun Hrd Hsd Hj Hsome Hnone.
  destruct (sweep_cells d2m m2d c phases ds Hrun) as (_ & Hoks & Hcells).
  rewrite (Hcells q ri j si); [|by eapply lookup_lt_Some..].
  unfold final_cell. rewrite Hrd, Hsd.
  specialize (Hoks ri rd si sd Hrd Hsd). unfold pair_df in *.
  set (df := row_of d2m <$> arrivals m2d c phases rd sd) in *.
  assert (df ≠ []) as Hdf.
  { subst df. by destruct (arrivals m2d c phases rd sd). }
  assert (∀ k, k ∈ groupby_keys df →
               k ∈ distance_grid c ∧ k ≠ g) as Hkeys.
  { intros k Hk. apply groupby_keys_elem_of in Hk.
    subst df. rewrite <-list_fmap_compose in Hk.
    apply list_elem_of_fmap in Hk as (a & -> & Ha). simpl. auto. }
  pose proof (pair_rows_keys df Hdf) as Hrows.
  pose proof (Forall2_length _ _ _ Hrows) as Hlen.
  assert (pair_cell (length (distance_grid c)) df q j nan
            = column_value (length (distance_grid c))
                (column q <$> pair_rows df) j nan) as ->
    by (unfold pair_cell; by destruct df).
  destruct (decide (length (pair_rows df) = length (distance_grid c)))
    as [Hfull|Hpart].
  - exfalso.
    assert (groupby_keys df ≡ₚ distance_grid c) as Hperm.
    { apply submseteq_length_Permutation; [|lia].
      apply NoDup_submseteq; [apply groupby_keys_NoDup|].
      intros k Hk. by apply Hkeys. }
    assert (g ∈ groupby_keys df) as Hg.
    { rewrite Hperm. apply list_elem_of_lookup. eauto. }
    by destruct (Hkeys g Hg).
  - destruct Hoks as [?|[?|Hone]]; [done|done|].
    destruct (pair_rows df) as [|row [|row' rows]]; try done.
    exists (column q row). unfold column_value. by rewrite decide_False.
Qed.

(** C3 as written: for every pair and every grid distance [g] with an
    arrival (the tracer was asked for it as [g * m2d]), the cells of [g]
    hold the earliest arrival of that distance. *)
Definition every_arrival_distance_holds_its_earliest
    (c : PhaseLookupCalculator) (phases : list string) (ds : Dataset)
  : Prop :=
  ∀ ri si j rd sd g,
    receiver_depth_grid c !! ri = Some rd →
    source_depth_grid c !! si = Some sd →
    distance_grid c !! j = Some g →
    (∃ a, a ∈ arrivals m2d c phases rd sd ∧ a_x a = (g * m2d)%Qc) →
    ∃ a, earliest_at (arrivals m2d c phases rd sd) (g * m2d)%Qc a ∧
         cells_hold ds ri j si a.

End Claims.

(** *** Worked examples *)

(** Metres per degree of arc, and back. *)
Definition metres_per_degree : Qc := of_Z 111195.
Definition degrees_per_metre : Qc := (/ metres_per_degree)%Qc.

(** A tracer with three arrivals at every requested distance while the
    source is at the surface and none below: a slow one, a fast one with
    a negative time stamp, and one as fast as the second. *)
Definition three_rays (x : Qc) : list Arrival :=
  [ {| a_x := x; a_t := (x * of_Z 1000 + of_Z 5)%Qc;
       a_incidence_angle := of_Z 190; a_takeoff_angle := of_Z 10;
       a_efficiency := of_Z 1; a_phase := "P" |};
    {| a_x := x; a_t := (- (x * of_Z 1000 + of_Z 3))%Qc;
       a_incidence_angle := of_Z (-20); a_takeoff_angle := of_Z 20;
       a_efficiency := of_Z 2; a_phase := "p" |};
    {| a_x := x; a_t := (x * of_Z 1000 + of_Z 3)%Qc;
       a_incidence_angle := of_Z 30; a_takeoff_angle := of_Z 30;
       a_efficiency := of_Z 3; a_phase := "P" |} ].

Definition surface_rays : VelocityModel :=
  λ distances phases zstart zstop,
    if decide (zstart = of_Z 0) then distances ≫= three_rays else [].

(** The same tracer with a shadow zone: nothing arrives beyond the
    first [reach] requested distances. *)
Definition shadowed_rays (reach : nat) : VelocityModel :=
  λ distances phases zstart zstop,
    if decide (zstart = of_Z 0) then take reach distances ≫= three_rays
    else [].

Definition calculator (grid : list Z) (tracer : VelocityModel)
  : PhaseLookupCalculator :=
  {| lat := Finite (Q2Qc (4612 # 100)); lon := Finite (Q2Qc (791 # 100));
     data_dir := "data";
     distance_grid := of_Z <$> grid;
     source_depth_grid := [of_Z 0; of_Z 500];
     receiver_depth_grid := [of_Z 0];
     model := tracer |}.

Definition run (c : PhaseLookupCalculator) : Result Dataset :=
  _calculate_lookup metres_per_degree degrees_per_metre c ["P"; "p"].

Definition dataset_of (r : Result Dataset) (c : PhaseLookupCalculator)
  : Dataset :=
  match r with
  | Ok ds => ds
  | Raise _ => empty_dataset c
  end.

(** A cell as a plain fraction, for reading off results. *)
Definition peek (r : Result Dataset) (q : quantity) (ri j si : nat)
  : Result (option (option Q)) :=
  match r with
  | Ok ds => Ok (fmap (M := option) this <$> get3 (values ds q) ri j si)
  | Raise e => Raise e
  end.

Definition increasing := calculator [0; 1000; 2000]%Z surface_rays.
Definition decreasing := calculator [2000; 1000]%Z surface_rays.
Definition shadowed := calculator [0; 1000; 2000]%Z (shadowed_rays 2).
Definition lone := calculator [0; 1000; 2000]%Z (shadowed_rays 1).

(** C2.  With arrivals at two of three grid distances the sweep raises
    [ValueError] instead of leaving the third distance not-a-number; with
    arrivals at one of three, it completes, and the two distances without
    an arrival hold the values of that arrival, not not-a-number. *)
Theorem C2_missing_distances_raise_or_are_filled :
  run shadowed = Raise ValueError ∧
  peek (run lone) arrival_time 0 0 0 = Ok (Some (Some (3 # 1)%Q)) ∧
  peek (run lone) arrival_time 0 1 0 = Ok (Some (Some (3 # 1)%Q)) ∧
  peek (run lone) arrival_time 0 2 0 = Ok (Some (Some (3 # 1)%Q)) ∧
  peek (run lone) incidence_angle 0 2 0 = Ok (Some (Some (160 # 1)%Q)).
Proof. repeat split; vm_compute; reflexivity. Qed.

(** C3.  On a decreasing grid the cells hold the arrivals of the
    wrong distances.  The rows come out of [groupby] in increasing order
    of distance and are written in that order: the dataset labels its
    first distance cell 2000 m and its second 1000 m, and the first holds
    the earliest arrival time of 1000 m, the second that of 2000 m.  So
    the cells of a distance with arrivals do not hold its earliest
    arrival. *)
Theorem C3_decreasing_grid_swaps_the_distances :
  ∃ ds, run decreasing = Ok ds ∧
    coord_distance ds = [of_Z 2000; of_Z 1000] ∧
    peek (run decreasing) arrival_time 0 0 0
      = Ok (Some (Some (266717 # 22239)%Q)) ∧
    peek (run decreasing) arrival_time 0 1 0
      = Ok (Some (Some (466717 # 22239)%Q)) ∧
    ¬ every_arrival_distance_holds_its_earliest
        degrees_per_metre decreasing ["P"; "p"] ds.
Proof.
  exists (dataset_of (run decreasing) decreasing).
  split; [vm_compute; reflexivity|]. split; [vm_compute; reflexivity|].
  split; [vm_compute; reflexivity|]. split; [vm_compute; reflexivity|].
  intros Hclaim.
  destruct (Hclaim 0 0 0 (of_Z 0) (of_Z 0) (of_Z 2000)
              eq_refl eq_refl eq_refl) as (a & (i & Hi & Hx & _) & Hcell & _).
  { exists {| a_x := (of_Z 2000 * degrees_per_metre)%Qc;
              a_t := (of_Z 2000 * degrees_per_metre * of_Z 1000 + of_Z 5)%Qc;
              a_incidence_angle := of_Z 190; a_takeoff_angle := of_Z 10;
              a_efficiency := of_Z 1; a_phase := "P" |}.
    split; [apply list_elem_of_here|]. reflexivity. }
  assert (this (fabs (a_t a)) ≠ (266717 # 22239)%Q) as Hne.
  { vm_compute in Hi.
    destruct i as [|[|[|[|[|[|i]]]]]]; simpl in Hi; inversion Hi; subst a;
      clear Hi; apply (f_equal this) in Hx; vm_compute in Hx;
      try discriminate Hx; vm_compute; discriminate. }
  apply Hne. apply (f_equal (λ x, match x with
                                  | Some (Some v) => this v
                                  | _ => 0%Q
                                  end)) in Hcell.
  rewrite <-Hcell. vm_compute. reflexivity.
Qed.

Lemma C4_pair_without_arrivals_left_nan_witness :
  lookup_pair metres_per_degree degrees_per_metre increasing ["P"; "p"]
              0 (of_Z 0) (empty_dataset increasing) (1, of_Z 500)
    = Ok (empty_dataset increasing) ∧
  (∃ ds, run increasing = Ok ds) ∧
  get3 (values (dataset_of (run increasing) increasing) efficiency) 0 2 1
    = Some nan.
Proof.
  destruct (C4_pair_without_arrivals_left_nan
              metres_per_degree degrees_per_metre increasing ["P"; "p"]
              0 1 (of_Z 0) (of_Z 500)) as (Hbody & Hcompletes & Hcells);
    [reflexivity|reflexivity|reflexivity|].
  split; [apply Hbody|]. split.
  - apply Hcompletes. intros r rd' s sd' Hrd' Hsd' Hne.
    destruct r as [|r]; [|done]. destruct s as [|[|s]]; try done.
    inversion Hrd'; inversion Hsd'; subst rd' sd'.
    right. left. vm_compute. reflexivity.
  - apply Hcells; [vm_compute; reflexivity|simpl; lia].
Defined.






End LookupProps.

(** ** The cache *)

Module CacheProps.
Import Helpers.
Local Close Scope Qc_scope.

Section Cache.
Variables d2m m2d : Qc.
Variable c : PhaseLookupCalculator.

(** One run of the loop of [__call__] that returns: files are only
    added, a sweep is only started for a group of the list whose file
    was missing, every group of the list ends up in the results with the
    dataset its file holds, and the other results are untouched. *)
Lemma call_loop_spec items r0 w w' r :
  call_loop d2m m2d c items r0 w = (w', Ok r) →
  (∀ fn ds, files w !! fn = Some ds → files w' !! fn = Some ds) ∧
  (∃ new, sweeps w' = sweeps w ++ new ∧
          ∀ g p, (g, p) ∈ new →
                 g ∈ items.*1 ∧ files w !! _filename c g = None) ∧
  (∀ g, g ∈ items.*1 →
        ∃ ds, r !! g = Some ds ∧ files w' !! _filename c g = Some ds) ∧
  (∀ g, g ∉ items.*1 → r !! g = r0 !! g).
Proof.
  revert r0 w. induction items as [|[g0 p0] items IH]; intros r0 w Hrun.
  - simpl in Hrun. inversion Hrun; subst. split; [done|]. split.
    + exists []. split; [by rewrite app_nil_r|].
      intros g p Hin. by apply elem_of_nil in Hin.
    + split; [|done]. intros g Hin. by apply elem_of_nil in Hin.
  - simpl in Hrun.
    destruct (files w !! _filename c g0) as [ds0|] eqn:Hfile.
    + apply IH in Hrun as (Hmono & (new & Hnew & Hnewin) & Hres & Hrest).
      simpl in *. split; [done|]. split; [|split].
      * exists new. split; [done|]. intros g p Hin.
        destruct (Hnewin g p Hin) as [Hg Hnone].
        split; [by apply list_elem_of_further|done].
      * intros g [->|Hin]%elem_of_cons; [|by apply Hres].
        destruct (decide (g0 ∈ items.*1)) as [Hin|Hnotin];
          [by apply Hres|].
        exists ds0. rewrite (Hrest g0 Hnotin), lookup_insert_eq.
        split; [done|]. by apply Hmono.
      * intros g Hg. apply not_elem_of_cons in Hg as [Hne Hg].
        by rewrite (Hrest g Hg), lookup_insert_ne.
    + destruct (_calculate_lookup d2m m2d c p0) as [ds0|e] eqn:Hsweep;
        [|done].
      apply IH in Hrun as (Hmono & (new & Hnew & Hnewin) & Hres & Hrest).
      simpl in *.
      assert (∀ fn ds, files w !! fn = Some ds →
                <[_filename c g0 := ds0]> (files w) !! fn = Some ds)
        as Hkeep.
      { intros fn ds Hfn. rewrite lookup_insert_ne; [done|].
        intros <-. congruence. }
      split; [auto|]. split; [|split].
      * exists ((g0, p0) :: new). split.
        { rewrite Hnew. by rewrite <-(assoc_L (++)). }
        intros g p [[= -> ->]|Hin]%elem_of_cons.
        { split; [apply list_elem_of_here|done]. }
        destruct (Hnewin g p Hin) as [Hg Hnone].
        split; [by apply list_elem_of_further|].
        destruct (files w !! _filename c g) as [ds|] eqn:Hg'; [|done].
        apply Hkeep in Hg'. congruence.
      * intros g [->|Hin]%elem_of_cons; [|by apply Hres].
        destruct (decide (g0 ∈ items.*1)) as [Hin|Hnotin];
          [by apply Hres|].
        exists ds0. rewrite (Hrest g0 Hnotin), lookup_insert_eq.
        split; [done|]. apply Hmono. apply lookup_insert_eq.
      * intros g Hg. apply not_elem_of_cons in Hg as [Hne Hg].
        by rewrite (Hrest g Hg), lookup_insert_ne.
Qed.

(** When the file of every group of the list is there, the loop
    returns, loads each of them, starts no sweep and writes no file. *)
Lemma call_loop_all_cached items r0 w :
  (∀ g, g ∈ items.*1 → is_Some (files w !! _filename c g)) →
  ∃ w' r, call_loop d2m m2d c items r0 w = (w', Ok r) ∧
          sweeps w' = sweeps w ∧ files w' = files w ∧
          (∀ g, g ∈ items.*1 → r !! g = files w !! _filename c g) ∧
          (∀ g, g ∉ items.*1 → r !! g = r0 !! g).
Proof.
  revert r0 w. induction items as [|[g0 p0] items IH]; intros r0 w Hall.
  - exists w, r0. simpl. split; [done|]. split; [done|]. split; [done|].
    split; [|done]. intros g Hin. by apply elem_of_nil in Hin.
  - destruct (Hall g0) as [ds0 Hfile]; [apply list_elem_of_here|].
    simpl. rewrite Hfile.
    destruct (IH (<[g0 := ds0]> r0) (print ("Loading " +:+ _filename c g0) w))
      as (w' & r & Hrun & Hsweeps & Hfiles & Hres & Hrest).
    { intros g Hin. simpl. by apply Hall, list_elem_of_further. }
    exists w', r. simpl in *.
    split; [done|]. split; [done|]. split; [done|]. split.
    + intros g [->|Hin]%elem_of_cons; [|by apply Hres].
      destruct (decide (g0 ∈ items.*1)) as [Hin|Hnotin]; [by apply Hres|].
      by rewrite (Hrest g0 Hnotin), lookup_insert_eq.
    + intros g Hg. apply not_elem_of_cons in Hg as [Hne Hg].
      by rewrite (Hrest g Hg), lookup_insert_ne.
Qed.

(** C1.  A group whose cache file is there when [__call__] starts
    is, in what [__call__] returns, the stored dataset itself, and no
    sweep was started for it.  When the files of all the groups are there,
    [__call__] does return, with the stored datasets and no sweep at all.
    In particular a second call with the same groups returns what the first
    returned, starts no sweep and leaves the files as they are. *)
Theorem C1_cache_hit_loads_without_sweep
    (phase_groups : list (string * list string)) (w : World) :
  (∀ w1 results group stored,
      __call__ d2m m2d c phase_groups w = (w1, Ok results) →
      group ∈ phase_groups.*1 →
      files w !! _filename c group = Some stored →
      results !! group = Some stored ∧
      ∃ new, sweeps w1 = sweeps w ++ new ∧ group ∉ new.*1) ∧
  ((∀ group, group ∈ phase_groups.*1 →
             is_Some (files w !! _filename c group)) →
   ∃ w1 results,
     __call__ d2m m2d c phase_groups w = (w1, Ok results) ∧
     sweeps w1 = sweeps w ∧ files w1 = files w ∧
     ∀ group, group ∈ phase_groups.*1 →
              results !! group = files w !! _filename c group) ∧
  (∀ w1 results,
      __call__ d2m m2d c phase_groups w = (w1, Ok results) →
      ∃ w2, __call__ d2m m2d c phase_groups w1 = (w2, Ok results) ∧
            sweeps w2 = sweeps w1 ∧ files w2 = files w1).
Proof.
  unfold __call__. split; [|split].
  - intros w1 results group stored Hrun Hin Hstored.
    destruct (call_loop_spec _ _ _ _ _ Hrun)
      as (Hmono & (new & Hnew & Hnewin) & Hres & _).
    destruct (Hres group Hin) as (ds & Hds & Hfile).
    rewrite (Hmono _ _ Hstored) in Hfile. inversion Hfile; subst ds.
    split; [done|]. exists new. split; [done|].
    intros ((g & p) & -> & Hgp)%list_elem_of_fmap. simpl in *.
    destruct (Hnewin g p Hgp) as [_ Hnone]. congruence.
  - intros Hall.
    destruct (call_loop_all_cached phase_groups ∅ w Hall)
      as (w1 & r & Hrun & Hsweeps & Hfiles & Hres & _).
    by exists w1, r.
  - intros w1 results Hrun.
    destruct (call_loop_spec _ _ _ _ _ Hrun) as (_ & _ & Hres & Hrest).
    destruct (call_loop_all_cached phase_groups ∅ w1)
      as (w2 & r2 & Hrun2 & Hsweeps & Hfiles & Hres2 & Hrest2).
    { intros g Hin. destruct (Hres g Hin) as (ds & _ & Hfile). eauto. }
    exists w2. split; [|done]. rewrite Hrun2. do 2 f_equal.
    apply map_eq. intros g.
    destruct (decide (g ∈ phase_groups.*1)) as [Hin|Hnotin].
    + rewrite (Hres2 g Hin).
      destruct (Hres g Hin) as (ds & -> & ->). done.
    + by rewrite (Hrest2 g Hnotin), (Hrest g Hnotin).
Qed.

End Cache.

(** The first call computes the table of the group [s] and loads that of
    the group [p], whose file is there (with a table of another shape). *)
Definition stored_table : Dataset := empty_dataset LookupProps.lone.

Definition disk_with_p : World :=
  {| files := {[ "data/p_lookup_46.12_7.91.nc" := stored_table ]};
     stdout := []; sweeps := [] |}.

Definition two_groups : list (string * list string) :=
  [("p", ["P"; "p"]); ("s", ["S"; "s"])].

Definition first_call : World * Result (gmap string Dataset) :=
  __call__ LookupProps.metres_per_degree LookupProps.degrees_per_metre
           LookupProps.increasing two_groups disk_with_p.

Definition results_of (r : World * Result (gmap string Dataset))
  : gmap string Dataset :=
  match r.2 with
  | Ok results => results
  | Raise _ => ∅
  end.

Lemma C1_cache_hit_loads_without_sweep_witness :
  _filename LookupProps.increasing "p" = "data/p_lookup_46.12_7.91.nc" ∧
  results_of first_call !! "p" = Some stored_table ∧
  sweeps first_call.1 = [("s", ["S"; "s"])] ∧
  ∃ w2, __call__ LookupProps.metres_per_degree LookupProps.degrees_per_metre
                 LookupProps.increasing two_groups first_call.1
          = (w2, Ok (results_of first_call)) ∧
        sweeps w2 = sweeps first_call.1 ∧ files w2 = files first_call.1.
Proof.
  split; [vm_compute; reflexivity|].
  destruct (C1_cache_hit_loads_without_sweep
              LookupProps.metres_per_degree LookupProps.degrees_per_metre
              LookupProps.increasing two_groups disk_with_p)
    as (Hhit & _ & Hagain).
  assert (first_call = (first_call.1, Ok (results_of first_call))) as Hrun
    by (vm_compute; reflexivity).
  split; [|split; [vm_compute; reflexivity|exact (Hagain _ _ Hrun)]].
  apply (Hhit first_call.1 (results_of first_call) "p" stored_table Hrun);
    [by_compute|vm_compute; reflexivity].
Defined.

(** *** Calculators that share a file name *)

(** The [.2f] conversions of two floats have the same digits and the
    same sign: the same sign bit, that of a zero included. *)
Definition same_two_decimals (x y : signed_float) : Prop :=
  hundredths (number x) = hundredths (number y) ∧ signbit x = signbit y.

Lemma same_two_decimals_format x y :
  same_two_decimals x y → format_2f x = format_2f y.
Proof.
  intros [Hdigits Hsign]. unfold format_2f. by rewrite Hdigits, Hsign.
Qed.

(** C10 as written: coordinates that round to the same numbers. *)
Definition agree_after_rounding (c1 c2 : PhaseLookupCalculator) : Prop :=
  round2 (number (lat c1)) = round2 (number (lat c2)) ∧
  round2 (number (lon c1)) = round2 (number (lon c2)).

Section Sharing.
Variables d2m m2d : Qc.

(** C10, as the code has it.  Two calculators with the same data
    directory whose coordinates print the same to two decimals (same
    digits, same sign bit) name their cache files alike for every group;
    and what one of them returned and cached, the other loads and
    returns for the same groups, without a sweep, whatever its exact
    coordinates, its grids and its tracer are. *)
Theorem C10_same_directory_and_decimals_share_cache
    (c1 c2 : PhaseLookupCalculator) :
  data_dir c1 = data_dir c2 →
  same_two_decimals (lat c1) (lat c2) →
  same_two_decimals (lon c1) (lon c2) →
  (∀ group, _filename c1 group = _filename c2 group) ∧
  ∀ phase_groups w w1 results,
    __call__ d2m m2d c1 phase_groups w = (w1, Ok results) →
    ∃ w2, __call__ d2m m2d c2 phase_groups w1 = (w2, Ok results) ∧
          sweeps w2 = sweeps w1 ∧ files w2 = files w1.
Proof.
  intros Hdir Hlat Hlon.
  assert (∀ group, _filename c1 group = _filename c2 group) as Hname.
  { intros group. unfold _filename.
    by rewrite Hdir, (same_two_decimals_format _ _ Hlat),
               (same_two_decimals_format _ _ Hlon). }
  split; [done|].
  unfold __call__. intros phase_groups w w1 results Hrun.
  destruct (call_loop_spec d2m m2d c1 _ _ _ _ _ Hrun)
    as (_ & _ & Hres & Hrest).
  destruct (call_loop_all_cached d2m m2d c2 phase_groups ∅ w1)
    as (w2 & r2 & Hrun2 & Hsweeps & Hfiles & Hres2 & Hrest2).
  { intros g Hin. destruct (Hres g Hin) as (ds & _ & Hfile).
    rewrite <-Hname. eauto. }
  exists w2. split; [|done]. rewrite Hrun2. do 2 f_equal.
  apply map_eq. intros g.
  destruct (decide (g ∈ phase_groups.*1)) as [Hin|Hnotin].
  - rewrite (Hres2 g Hin), <-Hname.
    destruct (Hres g Hin) as (ds & -> & ->). done.
  - by rewrite (Hrest2 g Hnotin), (Hrest g Hnotin).
Qed.

End Sharing.

Definition at_position (dir : string) (latitude longitude : Q)
    (grid : list Z) (tracer : VelocityModel) : PhaseLookupCalculator :=
  {| lat := Finite (Q2Qc latitude); lon := Finite (Q2Qc longitude);
     data_dir := dir;
     distance_grid := of_Z <$> grid;
     source_depth_grid := [of_Z 0; of_Z 500];
     receiver_depth_grid := [of_Z 0];
     model := tracer |}.

(** C10 as written fails twice: calculators at one and the same position
    with different data directories name different files; and so do, in
    one directory, a latitude just below zero and one just above, which
    both round to zero but print as [-0.00] and [0.00]. *)
Lemma C10_rounding_alone_counterexample :
  (agree_after_rounding
     (at_position "data" (4612 # 100) (791 # 100) [0; 1000]%Z
                  LookupProps.surface_rays)
     (at_position "cache" (4612 # 100) (791 # 100) [0; 1000]%Z
                  LookupProps.surface_rays) ∧
   _filename (at_position "data" (4612 # 100) (791 # 100) [0; 1000]%Z
                          LookupProps.surface_rays) "p"
     ≠ _filename (at_position "cache" (4612 # 100) (791 # 100) [0; 1000]%Z
                              LookupProps.surface_rays) "p") ∧
  (agree_after_rounding
     (at_position "data" (-1 # 1024) (791 # 100) [0; 1000]%Z
                  LookupProps.surface_rays)
     (at_position "data" (1 # 1024) (791 # 100) [0; 1000]%Z
                  LookupProps.surface_rays) ∧
   _filename (at_position "data" (-1 # 1024) (791 # 100) [0; 1000]%Z
                          LookupProps.surface_rays) "p"
     ≠ _filename (at_position "data" (1 # 1024) (791 # 100) [0; 1000]%Z
                              LookupProps.surface_rays) "p").
Proof.
  split; (split; [split; by_compute|vm_compute; discriminate]).
Qed.

Example filename_in_other_directory :
  _filename (at_position "cache" (4612 # 100) (791 # 100) [0; 1000]%Z
                         LookupProps.surface_rays) "p"
    = "cache/p_lookup_46.12_7.91.nc".
Proof. vm_compute. reflexivity. Qed.

Example filename_just_below_zero :
  _filename (at_position "data" (-1 # 1024) (791 # 100) [0; 1000]%Z
                         LookupProps.surface_rays) "p"
    = "data/p_lookup_-0.00_7.91.nc".
Proof. vm_compute. reflexivity. Qed.

Example filename_just_above_zero :
  _filename (at_position "data" (1 # 1024) (791 # 100) [0; 1000]%Z
                         LookupProps.surface_rays) "p"
    = "data/p_lookup_0.00_7.91.nc".
Proof. vm_compute. reflexivity. Qed.

(** The two zeros are one number and two file names. *)
Example filename_at_the_two_zeros :
  number NegativeZero = number (Finite 0%Qc) ∧
  format_2f NegativeZero = "-0.00" ∧
  format_2f (Finite 0%Qc) = "0.00" ∧
  ¬ same_two_decimals NegativeZero (Finite 0%Qc).
Proof.
  split; [reflexivity|]. split; [vm_compute; reflexivity|].
  split; [vm_compute; reflexivity|]. by intros [_ ?].
Qed.

(** Two calculators a few metres apart, with different grids and
    tracers: the second is handed the table of the first. *)
Lemma C10_same_directory_and_decimals_share_cache_witness :
  _filename (at_position "data" (46121 # 1000) (7909 # 1000) [0; 1000; 2000]%Z
                         LookupProps.surface_rays) "p"
    = _filename (at_position "data" (46124 # 1000) (7911 # 1000) [0; 500]%Z
                             (LookupProps.shadowed_rays 1)) "p" ∧
  ∃ w1 results w2,
    __call__ LookupProps.metres_per_degree LookupProps.degrees_per_metre
             (at_position "data" (46121 # 1000) (7909 # 1000) [0; 1000; 2000]%Z
                          LookupProps.surface_rays)
             two_groups {| files := ∅; stdout := []; sweeps := [] |}
      = (w1, Ok results) ∧
    __call__ LookupProps.metres_per_degree LookupProps.degrees_per_metre
             (at_position "data" (46124 # 1000) (7911 # 1000) [0; 500]%Z
                          (LookupProps.shadowed_rays 1))
             two_groups w1
      = (w2, Ok results) ∧
    sweeps w2 = sweeps w1.
Proof.
  destruct (C10_same_directory_and_decimals_share_cache
              LookupProps.metres_per_degree LookupProps.degrees_per_metre
              (at_position "data" (46121 # 1000) (7909 # 1000) [0; 1000; 2000]%Z
                           LookupProps.surface_rays)
              (at_position "data" (46124 # 1000) (7911 # 1000) [0; 500]%Z
                           (LookupProps.shadowed_rays 1)))
    as [Hname Hshare].
  - reflexivity.
  - split; [vm_compute; reflexivity|by_compute].
  - split; [vm_compute; reflexivity|by_compute].
  - split; [apply Hname|].
    set (r := __call__ LookupProps.metres_per_degree
                LookupProps.degrees_per_metre
                (at_position "data" (46121 # 1000) (7909 # 1000)
                             [0; 1000; 2000]%Z LookupProps.surface_rays)
                two_groups {| files := ∅; stdout := []; sweeps := [] |}).
    assert (r = (r.1, Ok (results_of r))) as Hr by (vm_compute; reflexivity).
    destruct (Hshare two_groups _ r.1 (results_of r) Hr)
      as (w2 & Hrun2 & Hsweeps & _).
    exists r.1, (results_of r), w2. split; [exact Hr|]. split; done.
Defined.

End CacheProps.

(** * Further properties *)

(** ** The selector during a session *)

Module SelectorExtras.
Import InteractiveProposal.
Local Close Scope Qc_scope.

(** The selector after the events of a session, before the window is
    closed. *)
Definition during (session : list event) : PointSelector :=
  foldl handle init session.

Lemma foldl_invariant {A B} (f : A → B → A) (P : A → Prop) (l : list B) a :
  P a → (∀ a x, P a → P (f a x)) → P (foldl f a l).
Proof.
  intros Ha Hstep. revert a Ha.
  induction l as [|x l IH]; intros a Ha; simpl; auto.
Qed.

(** What every handler keeps while the window is open: no finished line
    is empty, the line index counts the finished lines, and no result is
    set yet. *)
Definition session_inv (s : PointSelector) : Prop :=
  Forall (λ line, line ≠ []) (selected_points s) ∧
  current_line_index s = length (selected_points s) ∧
  result s = None.

Lemma finish_line_inv s : session_inv s → session_inv (finish_line s).
Proof.
  intros (Hlines & Hindex & Hres). unfold finish_line.
  destruct (current_line s) as [|p line] eqn:Hcur; simpl; [done|].
  split; [|split; [|done]].
  - apply Forall_app. split; [done|]. by repeat constructor.
  - simpl. rewrite length_app. simpl. lia.
Qed.

Lemma handle_inv s e : session_inv s → session_inv (handle s e).
Proof.
  intros Hinv. destruct e as [inaxes x y| | | | |]; simpl.
  - unfold on_click. by destruct inaxes.
  - unfold new_line. destruct (truthy (current_line s)); [|done].
    by apply finish_line_inv.
  - by apply finish_line_inv.
  - unfold clear_current_line. by destruct (truthy (current_line s)).
  - destruct Hinv as (_ & _ & Hres). unfold clear_all.
    split; [constructor|]. by split.
  - unfold print_points.
    assert (session_inv (if truthy (current_line s) then finish_line s else s))
      as (Hlines & Hindex & Hres)
      by (destruct (truthy (current_line s)); [by apply finish_line_inv|done]).
    by repeat split.
Qed.

Lemma during_inv session : session_inv (during session).
Proof.
  unfold during.
  apply (foldl_invariant handle session_inv); [|intros; by apply handle_inv].
  split; [constructor|]. by split.
Qed.

(** X1.  Whatever the operator does, the list of lines returned when the
    window is closed contains no empty line. *)
Theorem X1_result_has_no_empty_line (session : list event) :
  ∃ lines, get_result (run_selector session) = Some lines ∧
           Forall (λ line, line ≠ []) lines.
Proof.
  unfold run_selector, get_result, on_close. simpl. eexists. split; [done|].
  destruct (during_inv session) as (Hlines & _). fold (during session).
  destruct (current_line (during session)) as [|p line] eqn:Hcur; simpl;
    [done|].
  apply Forall_app. split; [done|]. by repeat constructor.
Qed.

(** X2.  While the window is open the line index is the number of
    finished lines, so the colour of the line being drawn is always one of
    the ten colours, that of its future position in the result, and a
    line that is finished lands in the result at that index. *)
Theorem X2_line_index_counts_finished_lines (session : list event) :
  current_line_index (during session)
    = length (selected_points (during session)) ∧
  (∃ colour, get_current_color (during session) = Some colour ∧
             colors !! (length (selected_points (during session)) `mod` 10)
               = Some colour) ∧
  (current_line (during session) ≠ [] →
   selected_points (finish_line (during session))
     !! current_line_index (during session)
     = Some (current_line (during session))).
Proof.
  destruct (during_inv session) as (_ & Hindex & _).
  split; [done|]. split.
  - unfold get_current_color. rewrite Hindex.
    destruct (lookup_lt_is_Some_2 colors
                (length (selected_points (during session)) `mod` length colors))
      as [colour Hcolour].
    { apply Nat.mod_upper_bound. done. }
    exists colour. by split.
  - intros Hcur. unfold finish_line.
    rewrite (SelectorProps.truthy_nonempty _ Hcur). simpl.
    rewrite Hindex, lookup_app_r by done.
    by rewrite Nat.sub_diag.
Qed.

(** The points clicked inside the axes, in the order of the clicks. *)
Definition clicked (session : list event) : polyline :=
  omap (λ e, match e with
             | Click true x y => Some (x, y)
             | _ => None
             end) session.

Definition clears (e : event) : bool :=
  match e with
  | ClearCurrentLine | ClearAll => true
  | _ => false
  end.

(** All the points held: the finished lines, then the line in progress. *)
Definition held (s : PointSelector) : polyline :=
  concat (selected_points s) ++ current_line s.

Lemma finish_line_held s : held (finish_line s) = held s.
Proof.
  unfold finish_line, held.
  destruct (current_line s) as [|p line] eqn:Hcur; simpl;
    [by rewrite Hcur|].
  rewrite concat_app. simpl. by rewrite !app_nil_r.
Qed.

Lemma handle_held s e :
  clears e = false → held (handle s e) = held s ++ clicked [e].
Proof.
  intros Hkeep. destruct e as [inaxes x y| | | | |]; simpl in *; try done.
  - unfold on_click, held. destruct inaxes; simpl;
      [by rewrite (assoc_L (++))|by rewrite app_nil_r].
  - unfold new_line. rewrite app_nil_r.
    destruct (truthy (current_line s)); [apply finish_line_held|done].
  - rewrite app_nil_r. apply finish_line_held.
  - rewrite app_nil_r. unfold print_points.
    transitivity (held (if truthy (current_line s) then finish_line s else s));
      [done|].
    destruct (truthy (current_line s)); [apply finish_line_held|done].
Qed.

Lemma during_snoc session e : during (session ++ [e]) = handle (during session) e.
Proof. unfold during. by rewrite foldl_app. Qed.

Lemma during_held session :
  forallb (λ e, negb (clears e)) session = true →
  held (during session) = clicked session.
Proof.
  induction session as [|e session IH] using rev_ind; intros Hkeep; [done|].
  rewrite forallb_app in Hkeep. apply andb_prop in Hkeep as [Hsession He].
  simpl in He. rewrite andb_true_r in He. apply negb_true_iff in He.
  rewrite during_snoc, (handle_held _ _ He), (IH Hsession).
  unfold clicked. by rewrite omap_app.
Qed.

(** X3.  In a session without [Clear Current Line] and [Clear All], no
    click inside the axes is lost, duplicated or reordered: the lines
    returned at close, put end to end, are the points clicked, in the order
    of the clicks. *)
Theorem X3_lines_are_the_clicks_in_order (session : list event) :
  forallb (λ e, negb (clears e)) session = true →
  ∃ lines, get_result (run_selector session) = Some lines ∧
           concat lines = clicked session.
Proof.
  intros Hkeep. unfold run_selector, get_result, on_close. simpl.
  fold (during session). eexists. split; [done|].
  rewrite <-(during_held session Hkeep). unfold held.
  destruct (current_line (during session)) as [|p line]; simpl.
  - by rewrite app_nil_r.
  - rewrite concat_app. simpl. by rewrite app_nil_r.
Qed.

(** A session with two lines, a click outside the axes and a listing. *)
Definition two_line_session : list event :=
  [Click true (of_Z 1) (of_Z 2); Click true (of_Z 3) (of_Z 4); NewLine;
   Click false (of_Z 0) (of_Z 0); PrintPoints; Click true (of_Z 5) (of_Z 6)].

Lemma X3_lines_are_the_clicks_in_order_witness :
  ∃ lines, get_result (run_selector two_line_session) = Some lines ∧
           concat lines
             = [(of_Z 1, of_Z 2); (of_Z 3, of_Z 4); (of_Z 5, of_Z 6)].
Proof.
  apply (X3_lines_are_the_clicks_in_order two_line_session). reflexivity.
Defined.

(** The part of the selector the returned lines depend on. *)
Definition selection (s : PointSelector)
  : list polyline * polyline * nat :=
  (selected_points s, current_line s, current_line_index s).

Lemma finish_line_selection s1 s2 :
  selection s1 = selection s2 →
  selection (finish_line s1) = selection (finish_line s2).
Proof.
  unfold selection, finish_line. intros [= H1 H2 H3]. rewrite H2.
  destruct (truthy (current_line s2)); simpl; congruence.
Qed.

Lemma handle_selection s1 s2 e :
  selection s1 = selection s2 →
  selection (handle s1 e) = selection (handle s2 e).
Proof.
  intros Heq. pose proof Heq as [= H1 H2 H3].
  destruct e as [inaxes x y| | | | |]; simpl.
  - unfold on_click, selection. destruct inaxes; simpl; congruence.
  - unfold new_line. rewrite H2. destruct (truthy (current_line s2));
      [by apply finish_line_selection|done].
  - by apply finish_line_selection.
  - unfold clear_current_line, selection. rewrite H2.
    destruct (truthy (current_line s2)); simpl; congruence.
  - done.
  - unfold print_points. rewrite H2.
    transitivity (selection (if truthy (current_line s2) then finish_line s1
                             else s1)); [done|].
    transitivity (selection (if truthy (current_line s2) then finish_line s2
                             else s2)); [|done].
    destruct (truthy (current_line s2)); [by apply finish_line_selection|done].
Qed.

Lemma foldl_handle_selection session s1 s2 :
  selection s1 = selection s2 →
  selection (foldl handle s1 session) = selection (foldl handle s2 session).
Proof.
  revert s1 s2. induction session as [|e session IH]; intros s1 s2 Heq;
    [done|].
  simpl. by apply IH, handle_selection.
Qed.

Lemma on_close_selection s1 s2 :
  selection s1 = selection s2 →
  get_result (on_close s1) = get_result (on_close s2).
Proof.
  intros [= H1 H2 H3]. unfold get_result, on_close. simpl.
  by rewrite H1, H2.
Qed.

(** X4.  [Clear All] forgets everything picked before it: the lines
    returned at close are those of the events after the last [Clear All],
    as if the session had started there. *)
Theorem X4_clear_all_forgets_the_past (before after : list event) :
  get_result (run_selector (before ++ ClearAll :: after))
    = get_result (run_selector after).
Proof.
  unfold run_selector. apply on_close_selection.
  rewrite foldl_app. simpl. by apply foldl_handle_selection.
Qed.

(** X5.  While the window is open, [Print Points] lists exactly the
    lines that closing the window at that moment would return. *)
Theorem X5_print_points_lists_what_close_returns (session : list event) :
  ∃ lines, get_result (run_selector session) = Some lines ∧
           last (printed (print_points (during session)))
             = Some (PointsListing lines).
Proof.
  destruct (during_inv session) as (_ & _ & Hres).
  unfold run_selector, get_result, on_close. simpl. fold (during session).
  eexists. split; [done|].
  unfold print_points, finish_line.
  destruct (current_line (during session)) as [|p line]; simpl.
  - rewrite Hres. by rewrite last_snoc.
  - rewrite Hres. by rewrite last_snoc.
Qed.

End SelectorExtras.

(** ** [select_points] and the file *)

Module PersistenceExtras.
Import InteractiveProposal.
Import SelectorProps.
Local Close Scope Qc_scope.

Section Persistence.
Context {bytes : Type}.
Variable dump : list polyline → bytes.
Variable load : bytes → option (list polyline).

(** X6.  Without a file name, and likewise with the empty string for
    one, [select_points] performs no file operation and prints nothing: it
    launches the session and returns its result. *)
Theorem X6_no_filename_no_file_operation (session : list event)
    (e : Env bytes) :
  select_points dump load session None e
    = (get_result (run_selector session), launch e) ∧
  select_points dump load session (Some "") e
    = (get_result (run_selector session), launch e).
Proof.
  unfold select_points, load_points, save_points. simpl.
  split; by destruct (get_result (run_selector session)).
Qed.

(** X7.  A session that ends with nothing selected is not saved: no
    file is written and no diagnostic printed, so with no file at the path
    the next call launches a session again. *)
Theorem X7_empty_selection_is_not_saved (session next : list event)
    (fn : string) (e : Env bytes) :
  disk bytes e !! fn = None →
  get_result (run_selector session) = Some [] →
  select_points dump load session (Some fn) e = (Some [], launch e) ∧
  select_points dump load next (Some fn) (launch e)
    = (get_result (run_selector next),
       save_points dump (Some fn) (get_result (run_selector next))
                   (launch (launch e))).
Proof.
  intros Hnofile Hempty.
  assert (∀ e0 : Env bytes, disk bytes e0 !! fn = None →
            load_points load (Some fn) e0 = (None, e0)) as Hfall.
  { intros e0 H0. unfold load_points, given.
    case_bool_decide; [done|by rewrite H0]. }
  split.
  - unfold select_points. rewrite (Hfall e Hnofile), Hempty.
    unfold save_points, given. by case_bool_decide.
  - unfold select_points. by rewrite (Hfall (launch e) Hnofile).
Qed.

(** X8.  A file that is there but does not load is replaced: when the
    session that follows selects something and the path can be written,
    the selection is what the file holds afterwards, and the next call
    returns it without a session. *)
Theorem X8_unloadable_file_is_replaced (session next : list event)
    (fn : string) (content : bytes) (pts : list polyline) (e : Env bytes) :
  (∀ l, load (dump l) = Some l) →
  fn ≠ "" →
  disk bytes e !! fn = Some content → load content = None →
  get_result (run_selector session) = Some pts → pts ≠ [] →
  fn ∉ read_only bytes e →
  (select_points dump load session (Some fn) e).1 = Some pts ∧
  disk bytes (select_points dump load session (Some fn) e).2 !! fn
    = Some (dump pts) ∧
  (select_points dump load next (Some fn)
     (select_points dump load session (Some fn) e).2).1 = Some pts ∧
  sessions bytes (select_points dump load next (Some fn)
                    (select_points dump load session (Some fn) e).2).2
    = sessions bytes (select_points dump load session (Some fn) e).2.
Proof.
  intros Hpickle Hfn Hfile Hload Hres Hpts Hrw.
  assert (select_points dump load session (Some fn) e
            = (Some pts,
               say (Saved fn)
                 {| disk := <[fn := dump pts]> (disk bytes e);
                    read_only := read_only bytes e;
                    console := console bytes e ++ [FailedToLoad fn; Proceeding];
                    sessions := S (sessions bytes e) |})) as Hfirst.
  { unfold select_points, load_points, save_points.
    rewrite (given_nonempty fn Hfn), Hfile, Hload, Hres. simpl.
    rewrite (truthy_nonempty pts Hpts), bool_decide_eq_false_2 by done.
    simpl. by rewrite <-(assoc_L (++)). }
  rewrite Hfirst. simpl.
  split; [done|]. split; [apply lookup_insert_eq|].
  unfold select_points, load_points.
  rewrite (given_nonempty fn Hfn). simpl.
  by rewrite lookup_insert_eq, Hpickle.
Qed.

End Persistence.

(** The toy pickle and the session of the earlier examples. *)
Lemma X7_empty_selection_is_not_saved_witness :
  select_points Some id [Click true (of_Z 1) (of_Z 2); ClearAll]
                (Some "out/points.pkl")
                {| disk := ∅; read_only := ∅; console := []; sessions := 0 |}
    = (Some [],
       {| disk := ∅; read_only := ∅; console := []; sessions := 1 |}).
Proof.
  destruct (X7_empty_selection_is_not_saved Some id
              [Click true (of_Z 1) (of_Z 2); ClearAll] [] "out/points.pkl"
              {| disk := ∅; read_only := ∅; console := []; sessions := 0 |})
    as [Hfirst _]; [reflexivity|reflexivity|].
  exact Hfirst.
Defined.

Lemma X8_unloadable_file_is_replaced_witness :
  (select_points Some id [] (Some "out/points.pkl")
     (select_points Some id drawing (Some "out/points.pkl")
                    (env_with None ∅)).2).1
    = Some [[(of_Z 7, of_Z 8); (of_Z 9, of_Z 10)]].
Proof.
  destruct (X8_unloadable_file_is_replaced Some id drawing []
              "out/points.pkl" None
              [[(of_Z 7, of_Z 8); (of_Z 9, of_Z 10)]] (env_with None ∅))
    as (_ & _ & Hnext & _);
    [reflexivity|discriminate|reflexivity|reflexivity|reflexivity
    |discriminate|apply not_elem_of_empty|].
  exact Hnext.
Defined.

End PersistenceExtras.

(** ** The sweep as a whole *)

Module LookupExtras.
Import Helpers.
Import LookupProps.
Local Close Scope Qc_scope.

Lemma for_each_preserves {A St} (body : St → A → Result St) (P : St → Prop)
    (l : list A) (s s' : St) :
  P s → (∀ s0 x s1, P s0 → body s0 x = Ok s1 → P s1) →
  for_each body l s = Ok s' → P s'.
Proof.
  intros Hs Hstep. revert s Hs.
  induction l as [|x l IH]; intros s Hs Hrun; simpl in Hrun.
  - by inversion Hrun; subst.
  - destruct (body s x) as [s1|e] eqn:Hbody; [|done]. simpl in Hrun.
    apply (IH s1); [|done]. by eapply Hstep.
Qed.

Definition coords (ds : Dataset) : list Qc * list Qc * list Qc :=
  (coord_receiver_depth ds, coord_distance ds, coord_source_depth ds).

Lemma set_values_coords ds q a : coords (set_values ds q a) = coords ds.
Proof. by destruct q. Qed.

Section Sweep.
Variables d2m m2d : Qc.
Variable c : PhaseLookupCalculator.
Variable phases : list string.

Abbreviation nr := (length (receiver_depth_grid c)).
Abbreviation nd := (length (distance_grid c)).
Abbreviation ns := (length (source_depth_grid c)).

Lemma lookup_pair_coords ri rd ds p ds' :
  lookup_pair d2m m2d c phases ri rd ds p = Ok ds' → coords ds' = coords ds.
Proof.
  destruct p as [si sd]. unfold lookup_pair.
  destruct (groupby_idxmin _) as [labels|[|]]; [|by intros [= ->]|done].
  intros Hrun.
  apply (for_each_preserves _ (λ ds0, coords ds0 = coords ds) _ _ _ eq_refl)
    in Hrun; [done|].
  intros ds0 q ds1 H0 Hw. unfold write_quantity in Hw.
  destruct (assign_column _ _ _ _) as [a|]; [|done]. simpl in Hw.
  inversion Hw; subst ds1. by rewrite set_values_coords.
Qed.

(** X10.  The dataset [_calculate_lookup] returns is laid out on the
    calculator's grids: its three coordinates are the three grids, and each
    of the four quantities has a cell exactly at the indices within the
    lengths of the grids. *)
Theorem X10_lookup_is_laid_out_on_the_grids (ds : Dataset) :
  _calculate_lookup d2m m2d c phases = Ok ds →
  coord_receiver_depth ds = receiver_depth_grid c ∧
  coord_distance ds = distance_grid c ∧
  coord_source_depth ds = source_depth_grid c ∧
  ∀ q r j s, is_Some (get3 (values ds q) r j s) ↔ r < nr ∧ j < nd ∧ s < ns.
Proof.
  intros Hrun.
  assert (coords ds = coords (empty_dataset c)) as [= H1 H2 H3].
  { unfold _calculate_lookup in Hrun.
    apply (for_each_preserves _ (λ ds0, coords ds0 = coords (empty_dataset c))
             _ _ _ eq_refl) in Hrun; [done|].
    intros ds0 [ri rd] ds1 H0 Hinner.
    apply (for_each_preserves _ (λ ds2, coords ds2 = coords (empty_dataset c))
             _ _ _ H0) in Hinner; [done|].
    intros ds2 p ds3 H2 Hpair.
    by rewrite (lookup_pair_coords _ _ _ _ _ Hpair). }
  split; [done|]. split; [done|]. split; [done|].
  destruct (sweep_cells d2m m2d c phases ds Hrun) as (Hwf & _).
  intros q r j s. split.
  - intros [cell Hcell]. by eapply get3_Some_in_range.
  - intros (Hr & Hj & Hs). by eapply get3_in_range.
Qed.





(** X12.  In a dataset [_calculate_lookup] returns, a pair without
    arrivals has all its cells not-a-number in all four quantities, and a
    pair with arrivals has a number in every cell; the four numbers of a
    cell are the arrival time, the incidence angle modulo 180, the takeoff
    angle and the efficiency of one and the same arrival of that pair. *)
Theorem X12_cells_of_a_pair_are_all_empty_or_all_filled (ds : Dataset)
    (r s j : nat) (rd sd : Qc) :
  _calculate_lookup d2m m2d c phases = Ok ds →
  receiver_depth_grid c !! r = Some rd →
  source_depth_grid c !! s = Some sd →
  j < nd →
  match arrivals m2d c phases rd sd with
  | [] => ∀ q, get3 (values ds q) r j s = Some nan
  | _ => ∃ a, a ∈ arrivals m2d c phases rd sd ∧ cells_hold ds r j s a
  end.
Proof.
  intros Hrun Hrd Hsd Hj.
  destruct (sweep_cells d2m m2d c phases ds Hrun) as (_ & Hoks & Hcells).
  assert (∀ q, get3 (values ds q) r j s
               = Some (pair_cell nd (pair_df d2m m2d c phases rd sd) q j nan))
    as Hq.
  { intros q. rewrite (Hcells q r j s); [|by eapply lookup_lt_Some|done
                                         |by eapply lookup_lt_Some].
    unfold final_cell. by rewrite Hrd, Hsd. }
  specialize (Hoks r rd s sd Hrd Hsd). unfold pair_df in *.
  destruct (arrivals m2d c phases rd sd) as [|a0 arrs] eqn:Harrs; [done|].
  rewrite <-Harrs in *.
  set (df := row_of d2m <$> arrivals m2d c phases rd sd) in *.
  assert (df ≠ []) as Hdf by (subst df; by rewrite Harrs).
  assert (∃ row, row ∈ pair_rows df ∧
            ∀ q, pair_cell nd df q j nan = Some (column q row))
    as (row & Hrow & Hcell).
  { assert (∀ q, pair_cell nd df q j nan
               = column_value nd (column q <$> pair_rows df) j nan) as Hpc
      by (intros; unfold pair_cell; by destruct df).
    destruct (decide (length (pair_rows df) = nd)) as [Hfull|Hpart].
    - destruct (lookup_lt_is_Some_2 (pair_rows df) j) as [row Hrow]; [lia|].
      exists row. split; [apply list_elem_of_lookup; eauto|].
      intros q. rewrite Hpc. unfold column_value.
      rewrite length_fmap, decide_True by done.
      by rewrite list_lookup_fmap, Hrow.
    - destruct Hoks as [?|[?|Hone]]; [done|done|].
      destruct (pair_rows df) as [|row [|row' rows]] eqn:Hpr; try done.
      exists row. split; [apply list_elem_of_here|].
      intros q. rewrite Hpc. unfold column_value.
      by rewrite decide_False. }
  apply pair_rows_subset in Hrow. subst df.
  apply list_elem_of_fmap in Hrow as (a & -> & Ha).
  exists a. split; [done|].
  unfold cells_hold. rewrite !Hq, !Hcell. done.
Qed.




End Sweep.

Lemma X10_lookup_is_laid_out_on_the_grids_witness :
  coord_distance (dataset_of (run increasing) increasing)
    = [of_Z 0; of_Z 1000; of_Z 2000] ∧
  (is_Some (get3 (values (dataset_of (run increasing) increasing)
                         takeoff_angle) 0 2 1) ↔ 0 < 1 ∧ 2 < 3 ∧ 1 < 2).
Proof.
  destruct (X10_lookup_is_laid_out_on_the_grids
              metres_per_degree degrees_per_metre increasing ["P"; "p"]
              (dataset_of (run increasing) increasing))
    as (_ & Hdistance & _ & Hcells); [vm_compute; reflexivity|].
  split; [exact Hdistance|apply Hcells].
Defined.


(** On the grid with a shadow zone after the first distance, the cells
    of the two distances without an arrival are filled as well. *)
Lemma X12_cells_of_a_pair_are_all_empty_or_all_filled_witness :
  (∃ a, a ∈ arrivals degrees_per_metre lone ["P"; "p"] (of_Z 0) (of_Z 0) ∧
        cells_hold (dataset_of (run lone) lone) 0 2 0 a) ∧
  ∀ q, get3 (values (dataset_of (run lone) lone) q) 0 2 1 = Some nan.
Proof.
  split.
  - apply (X12_cells_of_a_pair_are_all_empty_or_all_filled
             metres_per_degree degrees_per_metre lone ["P"; "p"]
             (dataset_of (run lone) lone) 0 0 2 (of_Z 0) (of_Z 0));
      [vm_compute; reflexivity|reflexivity|reflexivity|simpl; lia].
  - apply (X12_cells_of_a_pair_are_all_empty_or_all_filled
             metres_per_degree degrees_per_metre lone ["P"; "p"]
             (dataset_of (run lone) lone) 0 1 2 (of_Z 0) (of_Z 500));
      [vm_compute; reflexivity|reflexivity|reflexivity|simpl; lia].
Defined.


End LookupExtras.

(** ** The cache as a whole *)

Module CacheExtras.
Import Helpers.
Import CacheProps.
Local Close Scope Qc_scope.

Lemma list_ascii_of_string_app (s t : string) :
  String.list_ascii_of_string (s +:+ t)
    = String.list_ascii_of_string s ++ String.list_ascii_of_string t.
Proof. induction s as [|ch s IH]; simpl; [done|]. by rewrite IH. Qed.

Lemma append_cancel_r (s1 s2 t : string) : s1 +:+ t = s2 +:+ t → s1 = s2.
Proof.
  intros Heq. apply (f_equal String.list_ascii_of_string) in Heq.
  rewrite !list_ascii_of_string_app in Heq. apply app_inv_tail in Heq.
  apply (f_equal String.string_of_list_ascii) in Heq.
  by rewrite !String.string_of_list_ascii_of_string in Heq.
Qed.

(** A group name that does not start with a slash does not make the
    file name absolute. *)
Lemma relative_name (group rest : string) :
  String.prefix "/" group = false →
  String.prefix "/" (group +:+ "_lookup_" +:+ rest) = false.
Proof.
  destruct group as [|ch group]; [done|]. intros Hrel.
  change (String.prefix "/" (String ch (group +:+ "_lookup_" +:+ rest))
            = false).
  cbn -[Ascii.ascii_dec] in *.
  destruct (Ascii.ascii_dec _ ch); [|done]. by destruct group.
Qed.

Lemma relative_filename (c : PhaseLookupCalculator) :
  ∃ dir tail, ∀ group,
    String.prefix "/" group = false →
    _filename c group = dir +:+ group +:+ tail.
Proof.
  exists (if bool_decide (data_dir c = "") || ends_with_sep (data_dir c)
          then data_dir c else data_dir c +:+ "/"),
         ("_lookup_" +:+ format_2f (lat c) +:+ "_" +:+ format_2f (lon c)
                     +:+ ".nc").
  intros group Hrel. unfold _filename, path_join.
  rewrite (relative_name group _ Hrel).
  assert (∀ a b d : string, (a +:+ b) +:+ d = a +:+ b +:+ d) as Hassoc.
  { intros a b d. induction a as [|ch a IH]; [done|].
    transitivity (String ch ((a +:+ b) +:+ d)); [done|]. by rewrite IH. }
  destruct (bool_decide (data_dir c = "") || ends_with_sep (data_dir c)).
  - done.
  - by rewrite Hassoc.
Qed.

(** X13.  Two different group names, neither starting with a slash,
    never share a cache file of one calculator. *)
Theorem X13_groups_have_their_own_files (c : PhaseLookupCalculator)
    (g1 g2 : string) :
  String.prefix "/" g1 = false → String.prefix "/" g2 = false →
  g1 ≠ g2 → _filename c g1 ≠ _filename c g2.
Proof.
  intros H1 H2 Hne Heq.
  destruct (relative_filename c) as (dir & tail & Hname).
  rewrite (Hname g1 H1), (Hname g2 H2) in Heq.
  apply (inj (String.app dir)) in Heq.
  by apply append_cancel_r in Heq.
Qed.

Lemma X13_groups_have_their_own_files_witness :
  "p" ≠ "s" ∧
  _filename LookupProps.increasing "p" ≠ _filename LookupProps.increasing "s".
Proof.
  split; [discriminate|].
  apply (X13_groups_have_their_own_files LookupProps.increasing "p" "s");
    [reflexivity|reflexivity|discriminate].
Defined.

(** A plain name: a file name proper, with no slash in it. *)
Definition plain_name (g : string) : Prop :=
  Ascii.ascii_of_nat 47 ∉ String.list_ascii_of_string g.

#[global] Instance plain_name_dec g : Decision (plain_name g).
Proof. unfold plain_name. apply _. Defined.

Lemma plain_name_relative (g : string) :
  plain_name g → String.prefix "/" g = false.
Proof.
  destruct g as [|ch g]; [done|]. unfold plain_name. intros Hplain.
  cbn -[Ascii.ascii_dec] in *.
  destruct (Ascii.ascii_dec _ ch) as [<-|]; [|done].
  exfalso. apply Hplain, list_elem_of_here.
Qed.

Section Cache.
Variables d2m m2d : Qc.
Variable c : PhaseLookupCalculator.

Lemma call_loop_fresh items r0 w w1 results :
  NoDup items.*1 →
  (∀ g, g ∈ items.*1 → String.prefix "/" g = false) →
  (∀ g, g ∈ items.*1 → files w !! _filename c g = None) →
  call_loop d2m m2d c items r0 w = (w1, Ok results) →
  sweeps w1 = sweeps w ++ items ∧
  ∀ g phases, (g, phases) ∈ items →
    ∃ ds, _calculate_lookup d2m m2d c phases = Ok ds ∧
          results !! g = Some ds ∧ files w1 !! _filename c g = Some ds.
Proof.
  revert r0 w. induction items as [|[g0 p0] items IH];
    intros r0 w Hnodup Hrel Hfresh Hrun.
  - simpl in Hrun. inversion Hrun; subst. split; [by rewrite app_nil_r|].
    intros g phases Hin. by apply elem_of_nil in Hin.
  - simpl in Hnodup. apply NoDup_cons in Hnodup as [Hg0 Hnodup].
    simpl in Hrun. rewrite (Hfresh g0) in Hrun by apply list_elem_of_here.
    destruct (_calculate_lookup d2m m2d c p0) as [ds0|e] eqn:Hsweep; [|done].
    destruct (call_loop_spec _ _ _ _ _ _ _ _ Hrun) as (Hmono & _ & _ & Hrest).
    apply IH in Hrun as [Hsweeps Hgroups]; [|done| |].
    + simpl in *. split.
      { rewrite Hsweeps. by rewrite <-(assoc_L (++)). }
      intros g phases [[= -> ->]|Hin]%elem_of_cons; [|by apply Hgroups].
      exists ds0. split; [done|]. split.
      * by rewrite (Hrest g0 Hg0), lookup_insert_eq.
      * apply Hmono. simpl. apply lookup_insert_eq.
    + intros g Hin. by apply Hrel, list_elem_of_further.
    + intros g Hin. simpl. rewrite lookup_insert_ne.
      * by apply Hfresh, list_elem_of_further.
      * destruct (relative_filename c) as (dir & tail & Hname).
        rewrite (Hname g0), (Hname g);
          [|by apply Hrel, list_elem_of_further|apply Hrel, list_elem_of_here].
        intros Heq. apply (inj (String.app dir)) in Heq.
        apply append_cancel_r in Heq. subst g. by apply Hg0.
Qed.

(** X14.  Starting without any of the files, with distinct group names
    that are plain names (no slash in them, so that different names are
    different files of the data directory): when [__call__] returns, it
    has run one sweep per group, in the order of the groups, and holds
    for each group the dataset [_calculate_lookup] returned for its
    phases, which is also what the group's file holds afterwards. *)
Theorem X14_without_files_every_group_is_computed
    (phase_groups : list (string * list string)) (w w1 : World)
    (results : gmap string Dataset) :
  NoDup phase_groups.*1 →
  (∀ g, g ∈ phase_groups.*1 → plain_name g) →
  (∀ g, g ∈ phase_groups.*1 → files w !! _filename c g = None) →
  __call__ d2m m2d c phase_groups w = (w1, Ok results) →
  sweeps w1 = sweeps w ++ phase_groups ∧
  ∀ g phases, (g, phases) ∈ phase_groups →
    ∃ ds, _calculate_lookup d2m m2d c phases = Ok ds ∧
          results !! g = Some ds ∧ files w1 !! _filename c g = Some ds.
Proof.
  intros Hnodup Hplain Hfresh. unfold __call__.
  apply call_loop_fresh; [done| |done].
  intros g Hin. by apply plain_name_relative, Hplain.
Qed.

(** X16.  When [__call__] returns, the results have an entry for every
    group asked for and for no other name, and every group's file then
    holds the dataset returned for it. *)
Theorem X16_results_cover_exactly_the_groups
    (phase_groups : list (string * list string)) (w w1 : World)
    (results : gmap string Dataset) :
  __call__ d2m m2d c phase_groups w = (w1, Ok results) →
  (∀ g, is_Some (results !! g) ↔ g ∈ phase_groups.*1) ∧
  (∀ g, g ∈ phase_groups.*1 →
        files w1 !! _filename c g = results !! g).
Proof.
  unfold __call__. intros Hrun.
  destruct (call_loop_spec _ _ _ _ _ _ _ _ Hrun) as (_ & _ & Hres & Hrest).
  split.
  - intros g. split.
    + intros Hsome. destruct (decide (g ∈ phase_groups.*1)) as [|Hnotin];
        [done|].
      rewrite (Hrest g Hnotin), lookup_empty in Hsome. by destruct Hsome.
    + intros Hin. destruct (Hres g Hin) as (ds & -> & _). by eexists.
  - intros g Hin. by destruct (Hres g Hin) as (ds & -> & ->).
Qed.

End Cache.

Definition no_files : World := {| files := ∅; stdout := []; sweeps := [] |}.

Lemma X14_without_files_every_group_is_computed_witness :
  sweeps (__call__ LookupProps.metres_per_degree LookupProps.degrees_per_metre
                   LookupProps.increasing two_groups no_files).1
    = two_groups ∧
  ∃ ds, _calculate_lookup LookupProps.metres_per_degree
          LookupProps.degrees_per_metre LookupProps.increasing ["S"; "s"]
          = Ok ds ∧
        results_of (__call__ LookupProps.metres_per_degree
                             LookupProps.degrees_per_metre
                             LookupProps.increasing two_groups no_files)
          !! "s" = Some ds.
Proof.
  set (r := __call__ LookupProps.metres_per_degree
              LookupProps.degrees_per_metre
              LookupProps.increasing two_groups no_files).
  destruct (X14_without_files_every_group_is_computed
              LookupProps.metres_per_degree LookupProps.degrees_per_metre
              LookupProps.increasing two_groups no_files r.1 (results_of r))
    as [Hsweeps Hgroups];
    [by_compute|apply Forall_forall; by_compute
    |apply Forall_forall; by_compute|vm_compute; reflexivity|].
  split; [exact Hsweeps|].
  destruct (Hgroups "s" ["S"; "s"]) as (ds & Hds & Hres & _);
    [apply list_elem_of_further, list_elem_of_here|].
  exists ds. split; [exact Hds|exact Hres].
Defined.

Lemma X16_results_cover_exactly_the_groups_witness :
  (is_Some (results_of first_call !! "s") ↔ "s" ∈ two_groups.*1) ∧
  files first_call.1 !! _filename LookupProps.increasing "s"
    = results_of first_call !! "s".
Proof.
  destruct (X16_results_cover_exactly_the_groups
              LookupProps.metres_per_degree LookupProps.degrees_per_metre
              LookupProps.increasing two_groups disk_with_p first_call.1
              (results_of first_call)) as [Hdom Hfiles];
    [vm_compute; reflexivity|].
  split; [apply Hdom|apply Hfiles; by_compute].
Defined.

End CacheExtras.

(** ** The velocity profile *)

Module ProfileExtras.
Import Helpers.
Local Close Scope Qc_scope.

(** The lists of the loop, layer by layer. *)
Definition twice {A} (f : Layer → A * A) (layers : list Layer) : list A :=
  layers ≫= λ layer, [(f layer).1; (f layer).2].

Lemma velocity_profile_twice (layers : list Layer) :
  velocity_profile layers
    = (twice (λ l, (ztop l, zbot l)) layers,
       twice (λ l, (vp (material l (ztop l)), vp (material l (ztop l)))) layers,
       twice (λ l, (vs (material l (ztop l)), vs (material l (ztop l)))) layers).
Proof.
  unfold velocity_profile.
  assert (∀ acc : list Qc * list Qc * list Qc,
    foldl (λ '(depths, vps, vss) layer,
             let top := ztop layer in
             let bottom := zbot layer in
             let vp_i := vp (material layer top) in
             let vs_i := vs (material layer top) in
             (depths ++ [top; bottom], vps ++ [vp_i; vp_i],
              vss ++ [vs_i; vs_i])) acc layers
    = (acc.1.1 ++ twice (λ l, (ztop l, zbot l)) layers,
       acc.1.2 ++ twice (λ l, (vp (material l (ztop l)),
                               vp (material l (ztop l)))) layers,
       acc.2 ++ twice (λ l, (vs (material l (ztop l)),
                             vs (material l (ztop l)))) layers)) as Hgen.
  { induction layers as [|layer layers IH]; intros [[depths vps] vss]; simpl.
    - unfold twice. simpl. by rewrite !app_nil_r.
    - rewrite IH. simpl. unfold twice. simpl.
      by rewrite <-!(assoc_L (++)). }
  by rewrite Hgen.
Qed.

Lemma twice_length {A} (f : Layer → A * A) layers :
  length (twice f layers) = 2 * length layers.
Proof.
  unfold twice. induction layers as [|layer layers IH]; [done|].
  rewrite bind_cons, length_app, IH. simpl. lia.
Qed.

Lemma twice_lookup {A} (f : Layer → A * A) layers i layer :
  layers !! i = Some layer →
  twice f layers !! (2 * i) = Some (f layer).1 ∧
  twice f layers !! (2 * i + 1) = Some (f layer).2.
Proof.
  unfold twice. revert i. induction layers as [|l0 layers IH]; intros i Hi;
    [done|].
  rewrite bind_cons. destruct i as [|i]; simpl in Hi.
  - by inversion Hi; subst.
  - replace (2 * S i) with (S (S (2 * i))) by lia.
    replace (S (S (2 * i)) + 1) with (S (S (2 * i + 1))) by lia. simpl.
    by apply IH.
Qed.

(** X17.  The curves [plot_velocity_model] draws are staircases: the
    depth list and the two velocity lists all have two entries per layer,
    the top and the bottom of the layer (in kilometres) against one and the
    same velocity, that of the material at the top of the layer; a
    velocity gradient inside a layer is not drawn. *)
Theorem X17_velocity_curves_are_staircases (layers : list Layer) :
  let '((vp_km, depth_km), (vs_km, depth_km')) := plotted_curves layers in
  depth_km' = depth_km ∧
  length depth_km = 2 * length layers ∧
  length vp_km = 2 * length layers ∧
  length vs_km = 2 * length layers ∧
  ∀ i layer, layers !! i = Some layer →
    depth_km !! (2 * i) = Some (ztop layer / of_Z 1000)%Qc ∧
    depth_km !! (2 * i + 1) = Some (zbot layer / of_Z 1000)%Qc ∧
    vp_km !! (2 * i) = Some (vp (material layer (ztop layer)) / of_Z 1000)%Qc ∧
    vp_km !! (2 * i + 1) = vp_km !! (2 * i) ∧
    vs_km !! (2 * i) = Some (vs (material layer (ztop layer)) / of_Z 1000)%Qc ∧
    vs_km !! (2 * i + 1) = vs_km !! (2 * i).
Proof.
  unfold plotted_curves. rewrite velocity_profile_twice.
  split; [done|]. rewrite !length_fmap, !twice_length.
  split; [done|]. split; [done|]. split; [done|].
  intros i layer Hi. rewrite !list_lookup_fmap.
  destruct (twice_lookup (λ l, (ztop l, zbot l)) layers i layer Hi)
    as [-> ->].
  destruct (twice_lookup (λ l, (vp (material l (ztop l)),
                                vp (material l (ztop l)))) layers i layer Hi)
    as [-> ->].
  destruct (twice_lookup (λ l, (vs (material l (ztop l)),
                                vs (material l (ztop l)))) layers i layer Hi)
    as [-> ->].
  done.
Qed.

End ProfileExtras.
